(** * iotbot/client.py: the dispatch engine of [IOTBOT]

    A shallow embedding of [src/iotbot/client.py].  The Python object store
    is explicit (messages are objects that handlers may mutate), user
    callables are functions on that store, and every method of [IOTBOT] is a
    function in a small state-and-exception monad. *)

From stdpp Require Import base option list gmap strings.
From Stdlib Require Import ZArith Lia.

Set Default Proof Using "Type".
Open Scope Z_scope.
Open Scope nat_scope.

(** ** The Python object store *)

Module Py.

(** A reference is an index in the store; allocation appends. *)
Abbreviation loc := nat.

(** Values: immutable atoms are held by value, everything mutable sits
    behind a reference. *)
Inductive pyval :=
| VNone
| VInt (z : Z)
| VStr (s : string)
| VRef (l : loc).

(** Mutable objects: dicts (JSON payloads), lists, and class instances.
    An instance carries the names of its class and of the bases of that
    class (its [__mro__], most specific first) and its [__dict__]. *)
Inductive pyobj :=
| ODict (items : list (string * pyval))
| OList (elems : list pyval)
| OInst (mro : list string) (attrs : list (string * pyval)).

Abbreviation heap := (list pyobj).

#[global] Instance pyval_eq_dec : EqDecision pyval.
Proof. solve_decision. Defined.

#[global] Instance pyobj_eq_dec : EqDecision pyobj.
Proof. solve_decision. Defined.

(** The values an object holds, in order, and the same object around other
    values. *)
Definition children (o : pyobj) : list pyval :=
  match o with
  | ODict items => items.*2
  | OList elems => elems
  | OInst _ attrs => attrs.*2
  end.

Definition with_children (o : pyobj) (vs : list pyval) : pyobj :=
  match o with
  | ODict items => ODict (zip (items.*1) vs)
  | OList _ => OList vs
  | OInst mro attrs => OInst mro (zip (attrs.*1) vs)
  end.

Definition obj_map (f : pyval → pyval) (o : pyobj) : pyobj :=
  match o with
  | ODict items => ODict (prod_map id f <$> items)
  | OList elems => OList (f <$> elems)
  | OInst mro attrs => OInst mro (prod_map id f <$> attrs)
  end.

(** [y = cls.__new__(cls)], [y = {}], [y = []]: the empty object of the
    same kind that [copy.deepcopy] registers in its memo before it fills
    it. *)
Definition blank (o : pyobj) : pyobj :=
  match o with
  | ODict _ => ODict []
  | OList _ => OList []
  | OInst mro _ => OInst mro []
  end.

(** [getattr(x, name)] on an instance; [None] stands for AttributeError. *)
Fixpoint assoc (name : string) (kvs : list (string * pyval)) : option pyval :=
  match kvs with
  | [] => None
  | (k, v) :: kvs => if decide (k = name) then Some v else assoc name kvs
  end.

Definition getattr (h : heap) (v : pyval) (name : string) : option pyval :=
  match v with
  | VRef l =>
      match h !! l with
      | Some (OInst _ attrs) => assoc name attrs
      | _ => None
      end
  | _ => None
  end.

(** [type(x).__mro__] restricted to the classes this program talks about;
    atoms, dicts and lists are instances of none of them. *)
Definition mro_of (h : heap) (v : pyval) : list string :=
  match v with
  | VRef l =>
      match h !! l with
      | Some (OInst mro _) => mro
      | _ => []
      end
  | _ => []
  end.

(** [type(x).__name__] *)
Definition type_of (h : heap) (v : pyval) : option string := head (mro_of h v).

(** [isinstance(x, type(c))] *)
Definition isinstance_type_of (h : heap) (x c : pyval) : bool :=
  match type_of h c with
  | Some cls => bool_decide (cls ∈ mro_of h x)
  | None => false
  end.

(** *** [copy.deepcopy] *)

Abbreviation memo := (gmap loc loc).

(** Thread a store-passing copy function through a list of values. *)
Fixpoint copy_all {S : Type} (f : pyval → S → option (pyval * S))
    (vs : list pyval) (s : S) : option (list pyval * S) :=
  match vs with
  | [] => Some ([], s)
  | v :: vs =>
      match f v s with
      | None => None
      | Some (v', s1) =>
          match copy_all f vs s1 with
          | None => None
          | Some (vs', s2) => Some (v' :: vs', s2)
          end
      end
  end.

(** [copy.deepcopy(x, memo)]: atoms are returned as they are; an object
    already in the memo yields its recorded copy; otherwise an empty object
    is allocated and recorded in the memo, the constituents are copied
    recursively, and the new object is filled.  [fuel] is the nesting of
    recursive calls the interpreter still allows; [None] is a copy that
    needed more, or a dangling reference. *)
Fixpoint deepcopy_val (fuel : nat) (v : pyval) (s : memo * heap)
    : option (pyval * (memo * heap)) :=
  match v with
  | VRef l =>
      match s.1 !! l with
      | Some l' => Some (VRef l', s)
      | None =>
          match fuel with
          | O => None
          | S fuel' =>
              match s.2 !! l with
              | None => None
              | Some o =>
                  let l' := length s.2 in
                  match copy_all (deepcopy_val fuel') (children o)
                          (<[l:=l']> s.1, s.2 ++ [blank o]) with
                  | None => None
                  | Some (vs', (m2, h2)) =>
                      Some (VRef l', (m2, <[l':=with_children o vs']> h2))
                  end
              end
          end
      end
  | _ => Some (v, s)
  end.

(** [copy.deepcopy(x)]: a fresh memo per call.  The copy recurses once per
    level of nesting, and the interpreter stops it with [RecursionError] when
    the value is nested deeper than the recursion limit allows: [limit] is
    the number of objects the copy can descend through, and [None] is that
    error (or a dangling reference). *)
Definition deepcopy (limit : nat) (h : heap) (v : pyval) : option (pyval * heap) :=
  match deepcopy_val limit v (∅, h) with
  | Some (v', (_, h')) => Some (v', h')
  | None => None
  end.

(** References held by a value or an object. *)
Definition val_refs (v : pyval) : list loc :=
  match v with VRef l => [l] | _ => [] end.

Definition obj_refs (o : pyobj) : list loc := children o ≫= val_refs.

(** No dangling reference below [n]. *)
Definition closed_below (n : nat) (h : heap) : Prop :=
  n ≤ length h ∧
  ∀ l o, l < n → h !! l = Some o → ∀ r, r ∈ obj_refs o → r < n.

Definition closed (h : heap) : Prop := closed_below (length h) h.

Definition val_in (n : nat) (v : pyval) : Prop := ∀ r, r ∈ val_refs v → r < n.

(** Reachability through references. *)
Inductive reach (h : heap) : loc → loc → Prop :=
| reach_refl l : reach h l l
| reach_step l o r l' :
    h !! l = Some o → r ∈ obj_refs o → reach h r l' → reach h l l'.

(** What a reader sees from a value, down to a given depth: the object
    graph unfolded into a tree, references replaced by what they point to. *)
#[local] Unset Elimination Schemes.
Inductive view :=
| WAtom (v : pyval)
| WCut
| WDangling
| WObj (shape : pyobj) (subs : list view).
#[local] Set Elimination Schemes.

Fixpoint view_of (depth : nat) (h : heap) (v : pyval) : view :=
  match v with
  | VRef l =>
      match depth with
      | O => WCut
      | S d =>
          match h !! l with
          | None => WDangling
          | Some o => WObj (obj_map (λ _, VNone) o) (view_of d h <$> children o)
          end
      end
  | _ => WAtom v
  end.

(** Rename the references of a value along a memo. *)
Definition rename (m : memo) (v : pyval) : pyval :=
  match v with
  | VRef l => match m !! l with Some l' => VRef l' | None => v end
  | _ => v
  end.

End Py.

Import Py.

(** ** Exceptions, callables and the session monad *)

Inductive exn := Exn (cls : string) (msg : string).

Inductive Outcome (A : Type) :=
| Returns (a : A)
| Raises (e : exn).
Arguments Returns {A} a.
Arguments Raises {A} e.

(** A Python callable of one argument: its [__name__] and what calling it
    does to the store.  User callables (receivers, middlewares, hooks,
    scheduled jobs) and the constructors of [model_map] are of this type;
    a hook ignores its argument. *)
Record Callable := {
  __name__ : string;
  body : pyval → heap → Outcome pyval * heap;
}.

Inductive event_name := OnGroupMsgs | OnFriendMsgs | OnEvents.

#[global] Instance event_name_eq_dec : EqDecision event_name.
Proof. solve_decision. Defined.

(** A unit of work handed to [ThreadPoolExecutor.submit]: the scheduler
    loop [self._run_padding], a context distributor with its context, or a
    receiver with its copy of the context. *)
Inductive work :=
| RunPadding
| Distribute (c : event_name) (context : pyval)
| Receive (receiver : Callable) (context : pyval).

(** The future returned by [submit]; [done_callback] tells whether
    [add_done_callback(self.__thread_pool_callback)] was called on it. *)
Record Submission := {
  fn : work;
  done_callback : bool;
}.

Record ThreadPoolExecutor := {
  max_workers : nat;
  submitted : list Submission;
}.

(** [schedule.Scheduler]; [started] is the attribute [connect] sets, absent
    ([None]) on a fresh scheduler. *)
Record Scheduler := {
  jobs : list Callable;
  started : option bool;
}.

(** The three read-only handler lists of the plugin manager. *)
Record PluginManager := {
  friend_msg_receivers : list Callable;
  group_msg_receivers : list Callable;
  event_receivers : list Callable;
}.

(** The attributes of an [IOTBOT] that its dispatch engine reads or writes
    ([host], [port], [use_plugins], [plugin_dir] and [socketio] only serve
    [run], [close] and [__repr__]).  [executor] is [self.__executor]. *)
Record IOTBOT := {
  qq : list Z;
  group_blacklist : gset Z;
  friend_blacklist : gset Z;
  _exit : bool;
  scheduler : Scheduler;
  friend_msg_receivers_from_hand : list Callable;
  group_msg_receivers_from_hand : list Callable;
  event_receivers_from_hand : list Callable;
  friend_context_middleware : option Callable;
  group_context_middleware : option Callable;
  event_context_middleware : option Callable;
  plugMgr : PluginManager;
  when_connected_do : option (Callable * bool);
  when_disconnected_do : option (Callable * bool);
  executor : ThreadPoolExecutor;
}.

Inductive level := INFO | SUCCESS | WARNING | ERROR.

(** What the outside observes: log records, emits on the socket, and calls
    into user code. *)
Inductive event :=
| Logged (lvl : level) (msg : string) (args : list pyval)
| LoggedException (e : exn)
| Emitted (name : string) (arg : Z)
| Called (f : string) (arg : pyval).

Record state := {
  self : IOTBOT;
  store : heap;
  trace : list event;
}.

Definition M (A : Type) : Type := state → Outcome A * state.

#[global] Instance M_ret : MRet M := λ A a s, (Returns a, s).

#[global] Instance M_bind : MBind M := λ A B k m s,
  match m s with
  | (Returns a, s') => k a s'
  | (Raises e, s') => (Raises e, s')
  end.

Definition raise {A : Type} (e : exn) : M A := λ s, (Raises e, s).

Definition get_self : M IOTBOT := λ s, (Returns (self s), s).

Definition modify_self (f : IOTBOT → IOTBOT) : M unit := λ s,
  (Returns (), {| self := f (self s); store := store s; trace := trace s |}).

Definition get_store : M heap := λ s, (Returns (store s), s).

Definition emit_event (e : event) : M unit := λ s,
  (Returns (), {| self := self s; store := store s; trace := trace s ++ [e] |}).

(** [f(arg)] *)
Definition call (f : Callable) (arg : pyval) : M pyval := λ s,
  let '(r, h) := body f arg (store s) in
  (r, {| self := self s; store := h; trace := trace s ++ [Called (__name__ f) arg] |}).

(** [copy.deepcopy(x)], with the nesting the interpreter lets it reach. *)
Definition copy_deepcopy (limit : nat) (x : pyval) : M pyval := λ s,
  match deepcopy limit (store s) x with
  | Some (y, h) => (Returns y, {| self := self s; store := h; trace := trace s |})
  | None => (Raises (Exn "RecursionError" "maximum recursion depth exceeded"), s)
  end.

(** Read the store. *)
Definition read {A : Type} (f : heap → Outcome A) : M A := λ s, (f (store s), s).

(** [x.name] *)
Definition attr_in (x : pyval) (name : string) (h : heap) : Outcome pyval :=
  match getattr h x name with
  | Some v => Returns v
  | None => Raises (Exn "AttributeError" name)
  end.

Definition attr (x : pyval) (name : string) : M pyval := read (attr_in x name).

(** [x in blacklist] for a set of ints: an int is looked up; a str, None or
    an instance hashes and is not found; a dict or list is unhashable. *)
Definition contains_in (bl : gset Z) (x : pyval) (h : heap) : Outcome bool :=
  match x with
  | VInt z => Returns (bool_decide (z ∈ bl))
  | VRef l =>
      match h !! l with
      | Some (ODict _) | Some (OList _) => Raises (Exn "TypeError" "unhashable type")
      | _ => Returns false
      end
  | _ => Returns false
  end.

Definition contains (bl : gset Z) (x : pyval) : M bool := read (contains_in bl x).

(** ** Field updates of [self] *)

Definition set_executor (e : ThreadPoolExecutor) (b : IOTBOT) : IOTBOT :=
  {| qq := qq b; group_blacklist := group_blacklist b;
     friend_blacklist := friend_blacklist b; _exit := _exit b;
     scheduler := scheduler b;
     friend_msg_receivers_from_hand := friend_msg_receivers_from_hand b;
     group_msg_receivers_from_hand := group_msg_receivers_from_hand b;
     event_receivers_from_hand := event_receivers_from_hand b;
     friend_context_middleware := friend_context_middleware b;
     group_context_middleware := group_context_middleware b;
     event_context_middleware := event_context_middleware b;
     plugMgr := plugMgr b; when_connected_do := when_connected_do b;
     when_disconnected_do := when_disconnected_do b; executor := e |}.

Definition set_scheduler (sc : Scheduler) (b : IOTBOT) : IOTBOT :=
  {| qq := qq b; group_blacklist := group_blacklist b;
     friend_blacklist := friend_blacklist b; _exit := _exit b;
     scheduler := sc;
     friend_msg_receivers_from_hand := friend_msg_receivers_from_hand b;
     group_msg_receivers_from_hand := group_msg_receivers_from_hand b;
     event_receivers_from_hand := event_receivers_from_hand b;
     friend_context_middleware := friend_context_middleware b;
     group_context_middleware := group_context_middleware b;
     event_context_middleware := event_context_middleware b;
     plugMgr := plugMgr b; when_connected_do := when_connected_do b;
     when_disconnected_do := when_disconnected_do b; executor := executor b |}.

Definition set_plugMgr (p : PluginManager) (b : IOTBOT) : IOTBOT :=
  {| qq := qq b; group_blacklist := group_blacklist b;
     friend_blacklist := friend_blacklist b; _exit := _exit b;
     scheduler := scheduler b;
     friend_msg_receivers_from_hand := friend_msg_receivers_from_hand b;
     group_msg_receivers_from_hand := group_msg_receivers_from_hand b;
     event_receivers_from_hand := event_receivers_from_hand b;
     friend_context_middleware := friend_context_middleware b;
     group_context_middleware := group_context_middleware b;
     event_context_middleware := event_context_middleware b;
     plugMgr := p; when_connected_do := when_connected_do b;
     when_disconnected_do := when_disconnected_do b; executor := executor b |}.

Definition set_receivers_from_hand (fr gr er : list Callable) (b : IOTBOT) : IOTBOT :=
  {| qq := qq b; group_blacklist := group_blacklist b;
     friend_blacklist := friend_blacklist b; _exit := _exit b;
     scheduler := scheduler b;
     friend_msg_receivers_from_hand := fr;
     group_msg_receivers_from_hand := gr;
     event_receivers_from_hand := er;
     friend_context_middleware := friend_context_middleware b;
     group_context_middleware := group_context_middleware b;
     event_context_middleware := event_context_middleware b;
     plugMgr := plugMgr b; when_connected_do := when_connected_do b;
     when_disconnected_do := when_disconnected_do b; executor := executor b |}.

Definition set_context_middleware (fm gm em : option Callable) (b : IOTBOT) : IOTBOT :=
  {| qq := qq b; group_blacklist := group_blacklist b;
     friend_blacklist := friend_blacklist b; _exit := _exit b;
     scheduler := scheduler b;
     friend_msg_receivers_from_hand := friend_msg_receivers_from_hand b;
     group_msg_receivers_from_hand := group_msg_receivers_from_hand b;
     event_receivers_from_hand := event_receivers_from_hand b;
     friend_context_middleware := fm;
     group_context_middleware := gm;
     event_context_middleware := em;
     plugMgr := plugMgr b; when_connected_do := when_connected_do b;
     when_disconnected_do := when_disconnected_do b; executor := executor b |}.

Definition set_when_do (c d : option (Callable * bool)) (b : IOTBOT) : IOTBOT :=
  {| qq := qq b; group_blacklist := group_blacklist b;
     friend_blacklist := friend_blacklist b; _exit := _exit b;
     scheduler := scheduler b;
     friend_msg_receivers_from_hand := friend_msg_receivers_from_hand b;
     group_msg_receivers_from_hand := group_msg_receivers_from_hand b;
     event_receivers_from_hand := event_receivers_from_hand b;
     friend_context_middleware := friend_context_middleware b;
     group_context_middleware := group_context_middleware b;
     event_context_middleware := event_context_middleware b;
     plugMgr := plugMgr b; when_connected_do := c;
     when_disconnected_do := d; executor := executor b |}.

Definition set_blacklists (gb fb : gset Z) (b : IOTBOT) : IOTBOT :=
  {| qq := qq b; group_blacklist := gb;
     friend_blacklist := fb; _exit := _exit b;
     scheduler := scheduler b;
     friend_msg_receivers_from_hand := friend_msg_receivers_from_hand b;
     group_msg_receivers_from_hand := group_msg_receivers_from_hand b;
     event_receivers_from_hand := event_receivers_from_hand b;
     friend_context_middleware := friend_context_middleware b;
     group_context_middleware := group_context_middleware b;
     event_context_middleware := event_context_middleware b;
     plugMgr := plugMgr b; when_connected_do := when_connected_do b;
     when_disconnected_do := when_disconnected_do b; executor := executor b |}.

(** [self.__executor.submit(fn, ...)], followed by
    [.add_done_callback(self.__thread_pool_callback)] when [cb] is set.
    The caller gets its future at once; the unit runs later.  The pool is
    open here: only [close] shuts it down, as the process ends, and nothing
    below is run on the state [close] leaves but the checks of the exit flag
    by the scheduler loop. *)
Definition submit (w : work) (cb : bool) : M unit :=
  modify_self (λ b,
    set_executor
      {| max_workers := max_workers (executor b);
         submitted := submitted (executor b) ++ [{| fn := w; done_callback := cb |}] |}
      b).

(** ** Decorators for the connection hooks *)

(** What [when_connected] returns: [None], or the partial application that
    serves as decorator. *)
Inductive hook_result :=
| RNone
| RPartial (every_time : bool).

Definition when_connected (func : option Callable) (every_time : bool) : M hook_result :=
  match func with
  | None => mret (RPartial every_time)
  | Some f =>
      modify_self (λ b, set_when_do (Some (f, every_time)) (when_disconnected_do b) b);;
      mret RNone
  end.

Definition when_disconnected (func : option Callable) (every_time : bool) : M hook_result :=
  match func with
  | None => mret (RPartial every_time)
  | Some f =>
      modify_self (λ b, set_when_do (when_connected_do b) (Some (f, every_time)) b);;
      mret RNone
  end.

(** ** Collaborators that live outside [client.py] *)

(** [iotbot.config.config]: the fields the constructor reads. *)
Record Config := {
  config_group_blacklist : option (list Z);
  config_friend_blacklist : option (list Z);
  config_webhook : bool;
}.

(** [iotbot.webhook]: its three receivers. *)
Record Webhook := {
  receive_friend_msg : Callable;
  receive_group_msg : Callable;
  receive_events : Callable;
}.

(** [iotbot.plugin.PluginManager]: construction and the operations the
    shortcuts of [IOTBOT] forward to. *)
Record PluginAPI := {
  new_PluginManager : string → PluginManager;
  pm_load_plugins : PluginManager → PluginManager;
  pm_reload_plugins : PluginManager → PluginManager;
  pm_refresh : PluginManager → PluginManager;
  pm_reload_plugin : string → PluginManager → PluginManager;
  pm_remove_plugin : string → PluginManager → PluginManager;
  pm_recover_plugin : string → PluginManager → PluginManager;
}.

(** [a or b] on optional lists: the first operand unless it is falsy
    ([None] or empty). *)
Definition py_or (a b : option (list Z)) : option (list Z) :=
  match a with
  | Some (_ :: _) => a
  | _ => b
  end.

Section Client.

(** [iotbot.model.model_map], [config], [webhook] and the plugin manager are
    imported by [client.py]; the methods below are parameterised by them. *)
Variable model_map : event_name → Callable.
Variable config : Config.
Variable webhook : Webhook.
Variable plugin : PluginAPI.

(** The nesting [copy.deepcopy] can reach before the interpreter's recursion
    limit stops it. *)
Variable recursion_limit : nat.

(** *** Shortcuts to the plugin manager *)

Definition load_plugins : M unit :=
  modify_self (λ b, set_plugMgr (pm_load_plugins plugin (plugMgr b)) b).

Definition reload_plugins : M unit :=
  modify_self (λ b, set_plugMgr (pm_reload_plugins plugin (plugMgr b)) b).

Definition reload_plugin (plugin_name : string) : M unit :=
  modify_self (λ b, set_plugMgr (pm_reload_plugin plugin plugin_name (plugMgr b)) b).

Definition refresh_plugins : M unit :=
  modify_self (λ b, set_plugMgr (pm_refresh plugin (plugMgr b)) b).

Definition remove_plugin (plugin_name : string) : M unit :=
  modify_self (λ b, set_plugMgr (pm_remove_plugin plugin plugin_name (plugMgr b)) b).

Definition recover_plugin (plugin_name : string) : M unit :=
  modify_self (λ b, set_plugMgr (pm_recover_plugin plugin plugin_name (plugMgr b)) b).

(** *** The thread pool *)

(** [__refresh_executor]: a new pool whose size is
    [min(50, len([*..., *range(3)]) * 2)]. *)
Definition refresh_executor (b : IOTBOT) : IOTBOT :=
  set_executor
    {| max_workers :=
         Nat.min 50
           ((length (friend_msg_receivers (plugMgr b)
                     ++ friend_msg_receivers_from_hand b
                     ++ group_msg_receivers (plugMgr b)
                     ++ group_msg_receivers_from_hand b
                     ++ event_receivers (plugMgr b)
                     ++ event_receivers_from_hand b)
             + length (seq 0 3)) * 2);
       submitted := [] |}
    b.

(** *** The constructor *)

Definition __init__ (qq_arg : Z + list Z) (use_plugins : bool) (plugin_dir : string)
    (group_blacklist_arg friend_blacklist_arg : option (list Z)) : IOTBOT :=
  let pm := new_PluginManager plugin plugin_dir in
  refresh_executor
    {| qq := match qq_arg with inl q => [q] | inr qs => qs end;
       group_blacklist :=
         list_to_set
           (default [] (py_or (py_or (config_group_blacklist config) group_blacklist_arg)
                          (Some [])));
       friend_blacklist :=
         list_to_set
           (default [] (py_or (py_or (config_friend_blacklist config) friend_blacklist_arg)
                          (Some [])));
       _exit := false;
       scheduler := {| jobs := []; started := None |};
       friend_msg_receivers_from_hand :=
         if config_webhook config then [receive_friend_msg webhook] else [];
       group_msg_receivers_from_hand :=
         if config_webhook config then [receive_group_msg webhook] else [];
       event_receivers_from_hand :=
         if config_webhook config then [receive_events webhook] else [];
       friend_context_middleware := None;
       group_context_middleware := None;
       event_context_middleware := None;
       plugMgr := if use_plugins then pm_load_plugins plugin pm else pm;
       when_connected_do := None;
       when_disconnected_do := None;
       executor := {| max_workers := 0; submitted := [] |} |}.

(** *** Adding receivers by hand *)

Definition add_group_msg_receiver (func : Callable) : M unit :=
  modify_self (λ b,
    set_receivers_from_hand (friend_msg_receivers_from_hand b)
      (group_msg_receivers_from_hand b ++ [func]) (event_receivers_from_hand b) b).

Definition add_friend_msg_receiver (func : Callable) : M unit :=
  modify_self (λ b,
    set_receivers_from_hand (friend_msg_receivers_from_hand b ++ [func])
      (group_msg_receivers_from_hand b) (event_receivers_from_hand b) b).

Definition add_event_receiver (func : Callable) : M unit :=
  modify_self (λ b,
    set_receivers_from_hand (friend_msg_receivers_from_hand b)
      (group_msg_receivers_from_hand b) (event_receivers_from_hand b ++ [func]) b).

(** [_deco_creater(bind_type)]: the decorators [on_group_msg],
    [on_friend_msg] and [on_event]. *)
Definition _deco_creater (bind_type : event_name) (func : Callable) : M unit :=
  match bind_type with
  | OnGroupMsgs => add_group_msg_receiver func
  | OnFriendMsgs => add_friend_msg_receiver func
  | OnEvents => add_event_receiver func
  end.

(** The [receivers] property: the counts for friend, group, event. *)
Definition receivers (b : IOTBOT) : nat * nat * nat :=
  (length (friend_msg_receivers (plugMgr b) ++ friend_msg_receivers_from_hand b),
   length (group_msg_receivers (plugMgr b) ++ group_msg_receivers_from_hand b),
   length (event_receivers (plugMgr b) ++ event_receivers_from_hand b)).

(** *** Connection events *)

Fixpoint emit_GetWebConn (qqs : list Z) : M unit :=
  match qqs with
  | [] => mret ()
  | q :: qqs => emit_event (Emitted "GetWebConn" q);; emit_GetWebConn qqs
  end.

Definition connect : M unit :=
  emit_event (Logged SUCCESS "Connected to the server successfully!" []);;
  b ← get_self;
  emit_GetWebConn (qq b);;
  (if bool_decide (length (jobs (scheduler b)) ≠ 0)
      && negb (default false (started (scheduler b)))
   then
     submit RunPadding true;;
     modify_self (λ b,
       set_scheduler {| jobs := jobs (scheduler b); started := Some true |} b)
   else mret ());;
  b ← get_self;
  match when_connected_do b with
  | Some (f, _) =>
      call f VNone;;
      b ← get_self;
      match when_connected_do b with
      | Some (_, false) =>
          modify_self (λ b, set_when_do None (when_disconnected_do b) b)
      | _ => mret ()
      end
  | None => mret ()
  end.

Definition disconnect : M unit :=
  emit_event (Logged WARNING "Disconnected to the server!" []);;
  b ← get_self;
  match when_disconnected_do b with
  | Some (f, _) =>
      call f VNone;;
      b ← get_self;
      match when_disconnected_do b with
      | Some (_, false) =>
          modify_self (λ b, set_when_do (when_connected_do b) None b)
      | _ => mret ()
      end
  | None => mret ()
  end.

(** *** Context distributors *)

(** The loop body of a distributor over its snapshot of receivers:
    [self.__executor.submit(receiver, copy.deepcopy(context))
       .add_done_callback(self.__thread_pool_callback)]. *)
Fixpoint distribute_to (rs : list Callable) (context : pyval) : M unit :=
  match rs with
  | [] => mret ()
  | r :: rs =>
      c ← copy_deepcopy recursion_limit context;
      submit (Receive r c) true;;
      distribute_to rs context
  end.

Definition friend_context_distributor (context : pyval) : M unit :=
  b ← get_self;
  distribute_to
    (friend_msg_receivers_from_hand b ++ friend_msg_receivers (plugMgr b)) context.

Definition group_context_distributor (context : pyval) : M unit :=
  b ← get_self;
  distribute_to
    (group_msg_receivers_from_hand b ++ group_msg_receivers (plugMgr b)) context.

Definition event_context_distributor (context : pyval) : M unit :=
  b ← get_self;
  distribute_to
    (event_receivers_from_hand b ++ event_receivers (plugMgr b)) context.

(** *** Registering a context middleware *)

Definition register_friend_context_middleware (middleware : Callable) : M unit :=
  b ← get_self;
  match friend_context_middleware b with
  | Some _ => raise (Exn "Exception" "Cannot register more than one middleware(friend)")
  | None =>
      modify_self (λ b,
        set_context_middleware (Some middleware) (group_context_middleware b)
          (event_context_middleware b) b)
  end.

Definition register_group_context_middleware (middleware : Callable) : M unit :=
  b ← get_self;
  match group_context_middleware b with
  | Some _ => raise (Exn "Exception" "Cannot register more than one middleware(group)")
  | None =>
      modify_self (λ b,
        set_context_middleware (friend_context_middleware b) (Some middleware)
          (event_context_middleware b) b)
  end.

Definition register_event_context_middleware (middleware : Callable) : M unit :=
  b ← get_self;
  match event_context_middleware b with
  | Some _ => raise (Exn "Exception" "Cannot register more than one middleware(event)")
  | None =>
      modify_self (λ b,
        set_context_middleware (friend_context_middleware b)
          (group_context_middleware b) (Some middleware) b)
  end.

(** *** Message handlers *)

(** [@logger.catch]: an exception leaving the decorated function is logged
    and not re-raised. *)
Definition logger_catch (m : M unit) : M unit := λ s,
  match m s with
  | (Returns a, s') => (Returns a, s')
  | (Raises e, s') => emit_event (LoggedException e) s'
  end.

(** [__thread_pool_callback(worker)]; [worker] is the finished future, given
    here by how its unit ended. *)
Definition thread_pool_callback (worker : Outcome pyval) : M unit :=
  logger_catch
    (match worker with
     | Raises worker_exception => raise worker_exception
     | Returns _ => mret ()
     end).

(** A submitted unit finishes: the pool runs the callbacks of its future. *)
Definition finish (sub : Submission) (worker : Outcome pyval) : M unit :=
  if done_callback sub then thread_pool_callback worker else mret ().

(** [model_map[name](msg)] *)
Definition construct (name : event_name) (msg : pyval) : M pyval := λ s,
  let '(r, h) := body (model_map name) msg (store s) in
  (r, {| self := self s; store := h; trace := trace s |}).

(** [logger.info(f'{context.__class__.__name__} ->  {context.data}')] *)
Definition log_context (context : pyval) : M unit :=
  h ← get_store;
  data ← attr context "data";
  emit_event (Logged INFO "{} ->  {}"
                [VStr (default "" (type_of h context)); data]).

Definition friend_msg_handler (msg : pyval) : M unit :=
  context ← construct OnFriendMsgs msg;
  log_context context;;
  b ← get_self;
  FromUin ← attr context "FromUin";
  blacklisted ← contains (friend_blacklist b) FromUin;
  if blacklisted : bool then mret ()
  else
    match friend_context_middleware b with
    | Some middleware =>
        new_context ← call middleware context;
        h ← get_store;
        if isinstance_type_of h new_context context
        then submit (Distribute OnFriendMsgs new_context) false
        else mret ()
    | None => submit (Distribute OnFriendMsgs context) false
    end.

Definition group_msg_handler (msg : pyval) : M unit :=
  context ← construct OnGroupMsgs msg;
  log_context context;;
  b ← get_self;
  FromGroupId ← attr context "FromGroupId";
  blacklisted ← contains (group_blacklist b) FromGroupId;
  if blacklisted : bool then mret ()
  else
    match group_context_middleware b with
    | Some middleware =>
        new_context ← call middleware context;
        h ← get_store;
        if isinstance_type_of h new_context context
        then submit (Distribute OnGroupMsgs new_context) false
        else mret ()
    | None => submit (Distribute OnGroupMsgs context) false
    end.

Definition event_msg_handler (msg : pyval) : M unit :=
  context ← construct OnEvents msg;
  log_context context;;
  b ← get_self;
  match event_context_middleware b with
  | Some middleware =>
      new_context ← call middleware context;
      h ← get_store;
      if isinstance_type_of h new_context context
      then submit (Distribute OnEvents new_context) false
      else mret ()
  | None => submit (Distribute OnEvents context) false
  end.

(** [__initialize_handlers]: the handler bound to each inbound event name. *)
Definition handler_of (name : event_name) : pyval → M unit :=
  match name with
  | OnGroupMsgs => group_msg_handler
  | OnFriendMsgs => friend_msg_handler
  | OnEvents => event_msg_handler
  end.

(** The distributor a [Distribute] unit runs. *)
Definition distributor_of (name : event_name) : pyval → M unit :=
  match name with
  | OnGroupMsgs => group_context_distributor
  | OnFriendMsgs => friend_context_distributor
  | OnEvents => event_context_distributor
  end.

(** ** A session: what the transport, the pool and the user do to the bot *)

(** The transport calls [connect], [disconnect] and the handler bound to an
    inbound event; a pool worker runs a distributor unit or finishes a unit
    and runs its callbacks; the user registers hooks, receivers and
    middlewares, drives the plugin shortcuts, and adds jobs to
    [bot.scheduler] or clears them. *)
Inductive action :=
| Connect
| Disconnect
| Inbound (name : event_name) (msg : pyval)
| RunDistribute (name : event_name) (context : pyval)
| Finish (sub : Submission) (worker : Outcome pyval)
| WhenConnected (func : option Callable) (every_time : bool)
| WhenDisconnected (func : option Callable) (every_time : bool)
| AddReceiver (name : event_name) (func : Callable)
| RegisterMiddleware (name : event_name) (middleware : Callable)
| LoadPlugins
| ReloadPlugins
| ReloadPlugin (plugin_name : string)
| RefreshPlugins
| RemovePlugin (plugin_name : string)
| RecoverPlugin (plugin_name : string)
| ScheduleJob (job : Callable)
| ClearJobs.

Definition perform (a : action) : M unit :=
  match a with
  | Connect => connect
  | Disconnect => disconnect
  | Inbound name msg => handler_of name msg
  | RunDistribute name context => distributor_of name context
  | Finish sub worker => finish sub worker
  | WhenConnected func every_time => when_connected func every_time;; mret ()
  | WhenDisconnected func every_time => when_disconnected func every_time;; mret ()
  | AddReceiver name func => _deco_creater name func
  | RegisterMiddleware OnFriendMsgs mw => register_friend_context_middleware mw
  | RegisterMiddleware OnGroupMsgs mw => register_group_context_middleware mw
  | RegisterMiddleware OnEvents mw => register_event_context_middleware mw
  | LoadPlugins => load_plugins
  | ReloadPlugins => reload_plugins
  | ReloadPlugin n => reload_plugin n
  | RefreshPlugins => refresh_plugins
  | RemovePlugin n => remove_plugin n
  | RecoverPlugin n => recover_plugin n
  | ScheduleJob job =>
      modify_self (λ b,
        set_scheduler {| jobs := jobs (scheduler b) ++ [job];
                         started := started (scheduler b) |} b)
  | ClearJobs =>
      modify_self (λ b,
        set_scheduler {| jobs := []; started := started (scheduler b) |} b)
  end.

(** An exception that leaves a method ends that call only. *)
Definition step (s : state) (a : action) : state := (perform a s).2.

Definition run_session (s : state) (acts : list action) : state := foldl step s acts.

(** How many times the scheduler loop was handed to the pool. *)
Definition is_RunPadding (sub : Submission) : bool :=
  match fn sub with RunPadding => true | _ => false end.

Definition padding_submissions (s : state) : nat :=
  length (filter (λ sub, is_RunPadding sub = true) (submitted (executor (self s)))).

(** How many times a callable of a given name was called. *)
Definition is_call_of (name : string) (e : event) : bool :=
  match e with Called f _ => bool_decide (f = name) | _ => false end.

Definition calls_of (name : string) (tr : list event) : nat :=
  length (filter (λ e, is_call_of name e = true) tr).

End Client.


(** ** Vocabulary for the statements about copies *)

Section CopyVocabulary.

Implicit Types (h : heap) (m : memo) (v : pyval) (o : pyobj) (l r : loc).

(** From memo [m] and store [h], a copy run has reached memo [m'] and store
    [h']: old objects are untouched, and every entry added to the memo sends
    an object of the first [n0] to a new object that is the same object with
    its references renamed along the memo. *)
Definition copied (n0 : nat) m h m' h' : Prop :=
  m ⊆ m' ∧ length h ≤ length h' ∧ (∀ l, l < length h → h' !! l = h !! l) ∧
  ∀ l l', m' !! l = Some l' → m !! l = None →
    length h ≤ l' < length h' ∧ l < n0 ∧
    ∃ o, h !! l = Some o ∧ h' !! l' = Some (obj_map (rename m') o) ∧
         ∀ r, r ∈ obj_refs o → is_Some (m' !! r).

(** What copying one value establishes. *)
Definition copy_post (n0 : nat) v m h (res : pyval * (memo * heap)) : Prop :=
  copied n0 m h res.2.1 res.2.2 ∧ res.1 = rename res.2.1 v ∧
  ∀ r, r ∈ val_refs v → is_Some (res.2.1 !! r).

(** The objects of the first [n0] that are not yet in the memo. *)
Definition pending (n0 : nat) m : nat := size (set_seq 0 n0 ∖ dom m : gset nat).

(** Two copy runs end alike: both fail, or both return having copied the
    same objects. *)
Definition alike {A : Type} (r1 r2 : option (A * (memo * heap))) : Prop :=
  match r1, r2 with
  | Some a, Some b => dom a.2.1 =@{gset loc} dom b.2.1
  | None, None => True
  | _, _ => False
  end.

(** [P] holds of every reference of [v] and of every reference of an
    object [P] holds of: all that is reachable from [v] is in [P]. *)
Definition confined (P : loc → Prop) h v : Prop :=
  (∀ r, r ∈ val_refs v → P r) ∧
  ∀ l o, P l → h !! l = Some o → ∀ r, r ∈ obj_refs o → P r.

(** An object reachable from a value. *)
Definition reachable h v l : Prop := ∃ r, r ∈ val_refs v ∧ reach h r l.

(** A receiver mutates objects in place: a sequence of writes, each
    replacing the object at a reference. *)
Definition apply_writes h (ws : list (loc * pyobj)) : heap :=
  foldl (λ h w, <[w.1:=w.2]> h) h ws.

(** [h'] keeps every object of [h]. *)
Definition extends h h' : Prop :=
  length h ≤ length h' ∧ ∀ l, l < length h → h' !! l = h !! l.

(** The copies [cs] sit one after the other in [h'] from [lo] on, each
    confined to its own interval. *)
Fixpoint copies_from (lo : nat) h' (cs : list pyval) : Prop :=
  match cs with
  | [] => True
  | c :: cs =>
      ∃ hi P, lo ≤ hi ∧ confined P h' c ∧ (∀ l, P l → lo ≤ l < hi) ∧
              copies_from hi h' cs
  end.

End CopyVocabulary.

(** ** Vocabulary for the statements about the bot *)

(** [[*hand, *plugin]]: the receivers a distributor iterates over. *)
Definition merged_receivers (name : event_name) (b : IOTBOT) : list Callable :=
  match name with
  | OnGroupMsgs => group_msg_receivers_from_hand b ++ group_msg_receivers (plugMgr b)
  | OnFriendMsgs => friend_msg_receivers_from_hand b ++ friend_msg_receivers (plugMgr b)
  | OnEvents => event_receivers_from_hand b ++ event_receivers (plugMgr b)
  end.

(** The middleware slot of a category. *)
Definition middleware_of (name : event_name) (b : IOTBOT) : option Callable :=
  match name with
  | OnGroupMsgs => group_context_middleware b
  | OnFriendMsgs => friend_context_middleware b
  | OnEvents => event_context_middleware b
  end.

(** The bot after more units were handed to its pool. *)
Definition with_submitted (subs : list Submission) (b : IOTBOT) : IOTBOT :=
  set_executor
    {| max_workers := max_workers (executor b);
       submitted := submitted (executor b) ++ subs |}
    b.

(** One receiver invocation per receiver, each on its own copy, each with
    the completion callback. *)
Definition invocations (rs : list Callable) (cs : list pyval) : list Submission :=
  zip_with (λ r c, {| fn := Receive r c; done_callback := true |}) rs cs.

(** The callback flag by kind of unit: [connect] and the distributors call
    [add_done_callback] on the future they get, the message handlers do
    not. *)
Definition callback_by_kind (sub : Submission) : bool :=
  match fn sub with
  | Distribute _ _ => false
  | _ => true
  end.

(** The pool of [b'] is the pool of [b] with more units handed to it, all
    satisfying [ok]. *)
Definition pool_grows (ok : Submission → Prop) (b b' : IOTBOT) : Prop :=
  ∃ subs,
    executor b' =
      {| max_workers := max_workers (executor b);
         submitted := submitted (executor b) ++ subs |} ∧
    Forall ok subs.

(** [getattr(self.scheduler, 'started', False)] *)
Definition scheduler_started (b : IOTBOT) : bool := default false (started (scheduler b)).

(** Whether a [connect] on this bot starts the scheduler loop. *)
Definition starts_scheduler (b : IOTBOT) : bool :=
  bool_decide (length (jobs (scheduler b)) ≠ 0) && negb (scheduler_started b).

Definition is_Connect (a : action) : bool :=
  match a with Connect => true | _ => false end.

(** The sizing rule of the pool in the words of the specification:
    [min(50, 2 * (friend + group + event + 3))] over the current handlers. *)
Definition sizing_rule (b : IOTBOT) : nat :=
  Nat.min 50
    (2 * (length (merged_receivers OnFriendMsgs b)
          + length (merged_receivers OnGroupMsgs b)
          + length (merged_receivers OnEvents b) + 3)).

(** The state [connect] has reached when it turns to the hook: it has
    logged, emitted [GetWebConn] for every account, and started the
    scheduler loop if it had to. *)
Definition connected (s : state) : state :=
  {| self :=
       if starts_scheduler (self s)
       then set_scheduler {| jobs := jobs (scheduler (self s)); started := Some true |}
              (with_submitted [{| fn := RunPadding; done_callback := true |}] (self s))
       else self s;
     store := store s;
     trace := trace s ++ Logged SUCCESS "Connected to the server successfully!" []
                         :: (Emitted "GetWebConn" <$> qq (self s)) |}.

(** The state a hook call leaves: the store of the hook, one more call in
    the trace. *)
Definition hook_called (f : Callable) (h : heap) (b : IOTBOT) (s : state) : state :=
  {| self := b; store := h; trace := trace s ++ [Called (__name__ f) VNone] |}.

(** The record [logger.info] writes for a freshly built context. *)
Definition info_of (h : heap) (context data : pyval) : event :=
  Logged INFO "{} ->  {}" [VStr (default "" (type_of h context)); data].

(** The blacklist test of a category: [context.FromGroupId in
    self.group_blacklist], [context.FromUin in self.friend_blacklist], and
    no test for events. *)
Definition blacklist_verdict (name : event_name) (b : IOTBOT) (h : heap)
    (context : pyval) : Outcome bool :=
  match name with
  | OnGroupMsgs =>
      match attr_in context "FromGroupId" h with
      | Returns v => contains_in (group_blacklist b) v h
      | Raises e => Raises e
      end
  | OnFriendMsgs =>
      match attr_in context "FromUin" h with
      | Returns v => contains_in (friend_blacklist b) v h
      | Raises e => Raises e
      end
  | OnEvents => Returns false
  end.

(** The unit a message handler hands to the pool. *)
Definition dispatch (name : event_name) (context : pyval) : Submission :=
  {| fn := Distribute name context; done_callback := false |}.

(** Apply a change to [self]. *)
Definition with_self (f : IOTBOT → IOTBOT) (s : state) : state :=
  {| self := f (self s); store := store s; trace := trace s |}.

(** ** The claims of the specification that the code does not meet, in the
    words of the specification *)

(** "Each submitted unit is wrapped with a completion callback that checks
    for an unhandled failure and surfaces it": whenever a unit handed to the
    pool ends in a failure, the failure gets logged. *)
Definition every_unit_reports (s : state) : Prop :=
  ∀ sub e, sub ∈ submitted (executor (self s)) →
    LoggedException e ∈ trace (finish sub (Raises e) s).2.

(** "Deserialization/middleware failures: caught at the dispatch step;
    logged": the handler returns and the failure is in the log. *)
Definition caught_and_logged (model_map : event_name → Callable) (name : event_name)
    (msg : pyval) (s : state) (e : exn) : Prop :=
  ∃ s', handler_of model_map name msg s = (Returns (), s') ∧
        LoggedException e ∈ trace s'.

(** "If middleware returns a transformed value of the original type, every
    handler receives that transformed value": the distribution of the value
    returns, having handed one invocation to each receiver of the
    category. *)
Definition every_receiver_served (limit : nat) (name : event_name) (context : pyval)
    (s : state) : Prop :=
  ∃ cs h',
    distributor_of limit name context s =
      (Returns (),
       {| self := with_submitted (invocations (merged_receivers name (self s)) cs) (self s);
          store := h'; trace := trace s |}) ∧
    length cs = length (merged_receivers name (self s)).

(** "A hook registered with every_time false runs exactly once across two
    consecutive connect events — the slot is cleared after its first
    execution". *)
Definition one_shot_runs_once (s : state) (f : Callable) : Prop :=
  when_connected_do (self s) = Some (f, false) →
  when_connected_do (self (connect s).2) = None ∧
  calls_of (__name__ f) (trace (connect (connect s).2).2)
    = S (calls_of (__name__ f) (trace s)).

(** ** A sample deployment, to run the definitions on *)

Definition noop (name : string) : Callable :=
  {| __name__ := name; body := λ _ h, (Returns VNone, h) |}.

Definition failing (name : string) : Callable :=
  {| __name__ := name; body := λ _ h, (Raises (Exn "ValueError" name), h) |}.

(** A middleware that hands its argument back. *)
Definition passing (name : string) : Callable :=
  {| __name__ := name; body := λ context h, (Returns context, h) |}.

Definition sample_config : Config :=
  {| config_group_blacklist := None; config_friend_blacklist := None;
     config_webhook := false |}.

Definition sample_webhook : Webhook :=
  {| receive_friend_msg := noop "receive_friend_msg";
     receive_group_msg := noop "receive_group_msg";
     receive_events := noop "receive_events" |}.

Definition sample_plugin : PluginAPI :=
  {| new_PluginManager := λ _,
       {| friend_msg_receivers := []; group_msg_receivers := []; event_receivers := [] |};
     pm_load_plugins := id; pm_reload_plugins := id; pm_refresh := id;
     pm_reload_plugin := λ _, id; pm_remove_plugin := λ _, id;
     pm_recover_plugin := λ _, id |}.

(** A message class: the instance keeps the payload and lifts one of its
    keys to an attribute. *)
Definition sample_constructor (cls field : string) : Callable :=
  {| __name__ := cls;
     body := λ msg h,
       match msg with
       | VRef l =>
           match h !! l with
           | Some (ODict items) =>
               (Returns (VRef (length h)),
                h ++ [OInst [cls] [("message", msg); ("data", msg);
                                   (field, default VNone (assoc field items))]])
           | _ => (Raises (Exn "TypeError" cls), h)
           end
       | _ => (Raises (Exn "TypeError" cls), h)
       end |}.

Definition sample_model_map (name : event_name) : Callable :=
  match name with
  | OnGroupMsgs => sample_constructor "GroupMsg" "FromGroupId"
  | OnFriendMsgs => sample_constructor "FriendMsg" "FromUin"
  | OnEvents => sample_constructor "EventMsg" "EventName"
  end.

(** A bot for account 123 with group 1001 and friend 42 blacklisted. *)
Definition sample_bot : IOTBOT :=
  __init__ sample_config sample_webhook sample_plugin (inl 123%Z) false "plugins"
    (Some [1001%Z]) (Some [42%Z]).

(** Two payloads in the store: one from the blacklisted group and friend,
    one from group 2002 and friend 7. *)
Definition sample_store : heap :=
  [ODict [("FromGroupId", VInt 1001); ("FromUin", VInt 42); ("Content", VStr "spam")];
   ODict [("FromGroupId", VInt 2002); ("FromUin", VInt 7); ("Content", VStr "hello")]].

Definition sample_state : state :=
  {| self := sample_bot; store := sample_store; trace := [] |}.

(** CPython's default limit of 1000 frames, at two frames per nested list or
    dict, stops [copy.deepcopy] before the 500th level. *)
Definition sample_limit : nat := 499.

(** Run a list of actions on the sample deployment. *)
Definition sample_run (acts : list action) : state :=
  run_session sample_model_map sample_plugin sample_limit sample_state acts.

(** A decidable test for [closed_below]. *)
Definition check_closed (n : nat) (h : heap) : bool :=
  bool_decide (n ≤ length h)
  && forallb (λ o, forallb (λ r, bool_decide (r < n)) (obj_refs o)) (take n h).

(** The three registration methods, by category. *)
Definition register_context_middleware (name : event_name) : Callable → M unit :=
  match name with
  | OnGroupMsgs => register_group_context_middleware
  | OnFriendMsgs => register_friend_context_middleware
  | OnEvents => register_event_context_middleware
  end.

(** The state of a session that starts on a freshly constructed bot. *)
Definition fresh (b : IOTBOT) (h : heap) : state :=
  {| self := b; store := h; trace := [] |}.

(** The sample bot with a middleware for group messages and two group
    receivers, and the store once the payload of group 2002 has been built
    into a message. *)
Definition sample_group_state (mw : Callable) : state :=
  sample_run [RegisterMiddleware OnGroupMsgs mw;
              AddReceiver OnGroupMsgs (noop "first");
              AddReceiver OnGroupMsgs (noop "second")].

(** A payload whose content is nested [n + 1] lists deep. *)
Definition deep_store (n : nat) : heap :=
  ODict [("FromGroupId", VInt 2002); ("FromUin", VInt 7); ("Content", VRef 1)]
  :: ((λ i, OList [VRef (S (S i))]) <$> seq 0 n) ++ [OList []].

(** The sample bot with its middleware and two receivers, and a payload
    whose content is nested 601 lists deep. *)
Definition deep_state : state :=
  {| self := self (sample_group_state (passing "mw"));
     store := deep_store 600; trace := [] |}.

Definition deep_message : pyobj :=
  OInst ["GroupMsg"] [("message", VRef 0); ("data", VRef 0); ("FromGroupId", VInt 2002)].

Definition sample_message : pyobj :=
  OInst ["GroupMsg"] [("message", VRef 1); ("data", VRef 1); ("FromGroupId", VInt 2002)].

Definition sample_dispatched : state :=
  sample_run [AddReceiver OnGroupMsgs (noop "first");
              AddReceiver OnGroupMsgs (noop "second");
              Inbound OnGroupMsgs (VRef 1)].

(** ** Vocabulary for the statements about whole sessions *)

(** The receivers added by hand, and those of the plugin manager, by
    category. *)
Definition hand_receivers (name : event_name) (b : IOTBOT) : list Callable :=
  match name with
  | OnGroupMsgs => group_msg_receivers_from_hand b
  | OnFriendMsgs => friend_msg_receivers_from_hand b
  | OnEvents => event_receivers_from_hand b
  end.

Definition plugin_receivers (name : event_name) (b : IOTBOT) : list Callable :=
  match name with
  | OnGroupMsgs => group_msg_receivers (plugMgr b)
  | OnFriendMsgs => friend_msg_receivers (plugMgr b)
  | OnEvents => event_receivers (plugMgr b)
  end.

(** The accounts announced on the socket, in order. *)
Definition announced (tr : list event) : list Z :=
  tr ≫= λ e, match e with Emitted _ q => [q] | _ => [] end.

(** What an action adds to the hand receivers of a category, and what it
    puts in an empty middleware slot of a category. *)
Definition added_receivers (a : action) (name : event_name) : list Callable :=
  match a with
  | AddReceiver n f => if decide (n = name) then [f] else []
  | _ => []
  end.

Definition offered_middleware (a : action) (name : event_name) : option Callable :=
  match a with
  | RegisterMiddleware n mw => if decide (n = name) then Some mw else None
  | _ => None
  end.

(** What one action may do to the bot besides its pool, scheduler, plugin
    manager and hook slots. *)
Definition framed (a : action) (b b' : IOTBOT) : Prop :=
  qq b' = qq b ∧ group_blacklist b' = group_blacklist b ∧
  friend_blacklist b' = friend_blacklist b ∧ _exit b' = _exit b ∧
  (∀ name, hand_receivers name b' = hand_receivers name b ++ added_receivers a name) ∧
  (∀ name, middleware_of name b' =
             match middleware_of name b with
             | Some mw => Some mw
             | None => offered_middleware a name
             end).

(** [self.receivers['friend']], [['group']] and [['event']]. *)
Definition receivers_count (name : event_name) (b : IOTBOT) : nat :=
  match name with
  | OnFriendMsgs => (receivers b).1.1
  | OnGroupMsgs => (receivers b).1.2
  | OnEvents => (receivers b).2
  end.

(** The attribute a handler tests against its blacklist. *)
Definition id_attribute (name : event_name) : option string :=
  match name with
  | OnGroupMsgs => Some "FromGroupId"
  | OnFriendMsgs => Some "FromUin"
  | OnEvents => None
  end.

(** A message class whose instances have no attribute but those given. *)
Definition bare_constructor (cls : string) (attrs : list (string * pyval)) : Callable :=
  {| __name__ := cls;
     body := λ _ h, (Returns (VRef (length h)), h ++ [OInst [cls] attrs]) |}.

(** ** Shutdown: [close] and [run] *)

Definition set__exit (x : bool) (b : IOTBOT) : IOTBOT :=
  {| qq := qq b; group_blacklist := group_blacklist b;
     friend_blacklist := friend_blacklist b; _exit := x;
     scheduler := scheduler b;
     friend_msg_receivers_from_hand := friend_msg_receivers_from_hand b;
     group_msg_receivers_from_hand := group_msg_receivers_from_hand b;
     event_receivers_from_hand := event_receivers_from_hand b;
     friend_context_middleware := friend_context_middleware b;
     group_context_middleware := group_context_middleware b;
     event_context_middleware := event_context_middleware b;
     plugMgr := plugMgr b; when_connected_do := when_connected_do b;
     when_disconnected_do := when_disconnected_do b; executor := executor b |}.

(** The calls [run] and [close] make on [self.socketio], each given by how it
    ends: [connect(f'{host}:{port}', transports=['websocket'])], [wait()]
    together with what the transport and the pool do to the bot while the
    main thread waits, and [disconnect()]. *)
Record Transport := {
  sio_connect : Outcome unit;
  sio_wait : list action * Outcome unit;
  sio_disconnect : Outcome unit;
}.

(** The session and whether [self.__executor.shutdown] was called. *)
Record process := {
  session : state;
  pool_shut_down : bool;
}.

(** How a call that does not return ends: [sys.exit(status)], or an
    exception nobody caught. *)
Inductive ending :=
| SystemExit (status : Z)
| Uncaught (e : exn).

(** [except Exception] catches everything but the exceptions that derive
    from [BaseException] alone. *)
Definition is_Exception (e : exn) : bool :=
  match e with
  | Exn cls _ =>
      bool_decide (cls ∉ ["BaseException"; "SystemExit"; "KeyboardInterrupt"; "GeneratorExit"])
  end.

Definition is_KeyboardInterrupt (e : exn) : bool :=
  match e with Exn cls _ => bool_decide (cls = "KeyboardInterrupt") end.

Definition logged (e : event) (p : process) : process :=
  {| session := {| self := self (session p); store := store (session p);
                   trace := trace (session p) ++ [e] |};
     pool_shut_down := pool_shut_down p |}.

Definition close (t : Transport) (status : Z) (p : process) : ending * process :=
  match sio_disconnect t with
  | Raises e => (Uncaught e, p)
  | Returns _ =>
      (SystemExit status,
       {| session := with_self (set__exit true) (session p); pool_shut_down := true |})
  end.

Section Run.

Variable model_map : event_name → Callable.
Variable plugin : PluginAPI.
Variable recursion_limit : nat.

(** [run]: an [Exception] of [connect] is logged and answered by
    [close(1)]; otherwise the main thread waits, and whatever ends the wait
    (its return, a [KeyboardInterrupt] that is passed over, or an exception
    on its way out) the [finally] clause calls [close(0)], whose own ending
    supersedes it. *)
Definition run (t : Transport) (p : process) : ending * process :=
  let p0 := logged (Logged INFO "Connecting to the server..." []) p in
  match sio_connect t with
  | Raises e =>
      if is_Exception e then close t 1 (logged (LoggedException e) p0)
      else (Uncaught e, p0)
  | Returns _ =>
      let p1 := {| session := run_session model_map plugin recursion_limit (session p0)
                                (sio_wait t).1;
                   pool_shut_down := pool_shut_down p0 |} in
      match (sio_wait t).2 with
      | Returns _ => close t 0 p1
      | Raises e => if is_KeyboardInterrupt e then close t 0 p1 else close t 0 p1
      end
  end.

End Run.

(** ** The scheduler loop [_run_padding] *)

(** How one pass of the loop ends. *)
Inductive pass :=
| Returned
| Raised (e : exn)
| Again.

Section SchedulerLoop.

(** What the loop uses of the [schedule] library and of [time].  [W] is the
    clock together with the bookkeeping of the library (the next run of
    every job); a job is known to the bot by its function. *)
Variable W : Type.
(** [job.should_run] *)
Variable should_run : W → Callable → bool.
(** [sorted(runnable_jobs)]: by next run *)
Variable sorted : W → list Callable → list Callable.
(** [s._run_job(job)]: runs the function, reschedules or cancels the job *)
Variable _run_job : Callable → W * state → Outcome unit * (W * state).
(** [int(s.idle_seconds - 5)] *)
Variable idle_t : W * state → Outcome Z.
(** [time.sleep(delay)], with [delay = 5]: time passes, other threads run *)
Variable sleep : W * state → W * state.
(** what happens until the loop has come around after [continue] *)
Variable elapse : W * state → W * state.

Definition note (e : event) (ws : W * state) : W * state :=
  (ws.1, {| self := self ws.2; store := store ws.2; trace := trace ws.2 ++ [e] |}).

(** [for job in sorted(runnable_jobs): logger.info(...); s._run_job(job)] *)
Fixpoint run_jobs (js : list Callable) (ws : W * state) : Outcome unit * (W * state) :=
  match js with
  | [] => (Returns (), ws)
  | job :: js =>
      match _run_job job (note (Logged INFO "Running task => %s" [VStr (__name__ job)]) ws) with
      | (Returns _, ws1) => run_jobs js ws1
      | (Raises e, ws1) => (Raises e, ws1)
      end
  end.

(** [for _ in range(n): if self._exit: return; time.sleep(delay)]; the
    boolean tells whether the loop returned. *)
Fixpoint naps (n : nat) (ws : W * state) : bool * (W * state) :=
  match n with
  | O => (false, ws)
  | S n => if _exit (self ws.2) then (true, ws) else naps n (sleep ws)
  end.

(** The body of [while True]. *)
Definition padding_pass (ws : W * state) : pass * (W * state) :=
  if _exit (self ws.2) then (Returned, ws)
  else
    let s := scheduler (self ws.2) in
    match run_jobs (sorted ws.1 (filter (λ job, should_run ws.1 job = true) (jobs s))) ws with
    | (Raises e, ws1) => (Raised e, ws1)
    | (Returns _, ws1) =>
        match idle_t ws1 with
        | Raises e => (Raised e, ws1)
        | Returns t =>
            if bool_decide (t ≤ 0)%Z then (Again, elapse ws1)
            else
              match naps (Z.to_nat (t / 5)) ws1 with
              | (true, ws2) => (Returned, ws2)
              | (false, ws2) => (Again, ws2)
              end
        end
    end.

(** [while True], for at most [fuel] passes; [None]: still running. *)
Fixpoint passes (fuel : nat) (ws : W * state) : option (Outcome unit * (W * state)) :=
  match fuel with
  | O => None
  | S fuel =>
      match padding_pass ws with
      | (Returned, ws1) => Some (Returns (), ws1)
      | (Raised e, ws1) => Some (Raises e, ws1)
      | (Again, ws1) => passes fuel ws1
      end
  end.

Definition _run_padding (fuel : nat) (ws : W * state) : option (Outcome unit * (W * state)) :=
  passes fuel
    (note (Logged INFO "{} tasks that are scheduled to run."
             [VInt (Z.of_nat (length (jobs (scheduler (self ws.2)))))]) ws).

End SchedulerLoop.

(** ** More of the sample deployment *)

(** A transport on which everything goes well and nothing arrives, one whose
    connection is refused, and one that cannot even disconnect. *)
Definition quiet_transport : Transport :=
  {| sio_connect := Returns (); sio_wait := ([Connect], Returns ());
     sio_disconnect := Returns () |}.

Definition refusing_transport : Transport :=
  {| sio_connect := Raises (Exn "ConnectionError" "refused");
     sio_wait := ([], Returns ()); sio_disconnect := Returns () |}.

Definition stuck_transport : Transport :=
  {| sio_connect := Returns (); sio_wait := ([], Raises (Exn "KeyboardInterrupt" ""));
     sio_disconnect := Raises (Exn "OSError" "stuck") |}.

Definition sample_process : process :=
  {| session := sample_state; pool_shut_down := false |}.

(** A clock in seconds; every job is due, runs in the order of registration
    and takes a second; the next job is always 12 seconds away; a nap takes
    5 seconds and at second 10 another thread sets the exit flag. *)
Definition sample_run_job (job : Callable) (ws : nat * state) : Outcome unit * (nat * state) :=
  let '(r, h) := body job VNone (store ws.2) in
  (match r with Returns _ => Returns () | Raises e => Raises e end,
   (S ws.1, {| self := self ws.2; store := h; trace := trace ws.2 |})).

Definition sample_sleep (ws : nat * state) : nat * state :=
  (ws.1 + 5,
   if bool_decide (10 ≤ ws.1 + 5) then with_self (set__exit true) ws.2 else ws.2).

(** The sample bot with two group receivers and no middleware; with a
    failing one-shot hook for connect and for disconnect; and with three
    scheduled jobs, the second of which raises. *)
Definition sample_receivers_state : state :=
  sample_run [AddReceiver OnGroupMsgs (noop "first");
              AddReceiver OnGroupMsgs (noop "second")].

Definition sample_hooked_state : state :=
  sample_run [WhenConnected (Some (failing "hook")) false;
              WhenDisconnected (Some (failing "hook")) false].

Definition sample_jobs_state : state :=
  sample_run [ScheduleJob (noop "ok"); ScheduleJob (failing "bad");
              ScheduleJob (noop "never")].

(** What an action does to the plugin manager: the six shortcuts forward to
    it. *)
Definition plugin_effect (plugin : PluginAPI) (a : action) (pm : PluginManager)
    : PluginManager :=
  match a with
  | LoadPlugins => pm_load_plugins plugin pm
  | ReloadPlugins => pm_reload_plugins plugin pm
  | ReloadPlugin n => pm_reload_plugin plugin n pm
  | RefreshPlugins => pm_refresh plugin pm
  | RemovePlugin n => pm_remove_plugin plugin n pm
  | RecoverPlugin n => pm_recover_plugin plugin n pm
  | _ => pm
  end.

(** The actions of message traffic: an inbound event, a distributor run by
    the pool, a unit that finishes. *)
Definition is_traffic (a : action) : bool :=
  match a with
  | Inbound _ _ | RunDistribute _ _ | Finish _ _ => true
  | _ => false
  end.

(** The webhook's receiver for a category. *)
Definition webhook_receiver (webhook : Webhook) (name : event_name) : Callable :=
  match name with
  | OnGroupMsgs => receive_group_msg webhook
  | OnFriendMsgs => receive_friend_msg webhook
  | OnEvents => receive_events webhook
  end.

Definition webhook_config : Config :=
  {| config_group_blacklist := Some [5%Z]; config_friend_blacklist := None;
     config_webhook := true |}.
(** * Facts about the object store *)

Section StoreFacts.

Implicit Types (h : heap) (m : memo) (v : pyval) (o : pyobj) (l r : loc).

Lemma zip_keys_map (f : pyval → pyval) (kvs : list (string * pyval)) :
  zip (kvs.*1) (f <$> kvs.*2) = prod_map id f <$> kvs.
Proof. induction kvs as [|[k x] kvs IH]; csimpl; [done | by f_equal]. Qed.

Lemma with_children_map f o : with_children o (f <$> children o) = obj_map f o.
Proof. destruct o; cbn [with_children children obj_map]; by rewrite ?zip_keys_map. Qed.

Lemma children_obj_map f o : children (obj_map f o) = f <$> children o.
Proof.
  destruct o; simpl; try done;
    rewrite <- !list_fmap_compose; by apply list_fmap_ext; intros ? [].
Qed.

Lemma obj_map_const f o :
  obj_map (λ _, VNone) (obj_map f o) = obj_map (λ _, VNone) o.
Proof.
  destruct o; simpl; f_equal; rewrite <- list_fmap_compose;
    by apply list_fmap_ext; intros ? [].
Qed.

Lemma obj_map_ext f g o :
  (∀ x, x ∈ children o → f x = g x) → obj_map f o = obj_map g o.
Proof.
  intros Hfg. rewrite <- !with_children_map. f_equal.
  apply list_fmap_ext. intros i x Hx. apply Hfg. by eapply list_elem_of_lookup_2.
Qed.

Lemma elem_of_obj_refs r o : r ∈ obj_refs o ↔ VRef r ∈ children o.
Proof.
  unfold obj_refs. rewrite list_elem_of_bind. split.
  - intros ([]&Hr&Hx); simpl in Hr; try by apply elem_of_nil in Hr.
    apply list_elem_of_singleton in Hr. by subst.
  - intros Hx. exists (VRef r). split; [simpl; by apply list_elem_of_singleton | done].
Qed.

Lemma rename_mono m m' v :
  m ⊆ m' → (∀ r, r ∈ val_refs v → is_Some (m !! r)) → rename m' v = rename m v.
Proof.
  intros Hsub Hv. destruct v as [| | |l]; simpl; try done.
  destruct (Hv l) as [l' Hl]; [simpl; by apply list_elem_of_singleton|].
  rewrite Hl. by rewrite (lookup_weaken _ _ _ _ Hl Hsub).
Qed.

End StoreFacts.

Section Deepcopy.

Implicit Types (h : heap) (m : memo) (v : pyval) (o : pyobj) (l r : loc).

Lemma copied_refl n0 m h : copied n0 m h m h.
Proof.
  split_and!; [done | done | done |]. intros l l' H1 H2. congruence.
Qed.

Lemma copied_trans n0 m h m1 h1 m2 h2 :
  n0 ≤ length h → copied n0 m h m1 h1 → copied n0 m1 h1 m2 h2 →
  copied n0 m h m2 h2.
Proof.
  intros Hn (Hs1 & Hl1 & Ha1 & Hn1) (Hs2 & Hl2 & Ha2 & Hn2).
  split_and!.
  - by etrans.
  - lia.
  - intros l Hl. rewrite Ha2 by lia. by apply Ha1.
  - intros l l' Hm2 Hm.
    destruct (m1 !! l) as [l1|] eqn:Hm1.
    + assert (l1 = l') as -> by (pose proof (lookup_weaken _ _ _ _ Hm1 Hs2); congruence).
      destruct (Hn1 l l' Hm1 Hm) as (Hb & Hl & o & Ho & Ho' & Hr).
      split_and!; [lia | lia | done |].
      exists o. split_and!; [done | |].
      * rewrite Ha2 by lia. rewrite Ho'. f_equal. apply obj_map_ext.
        intros x Hx. symmetry. apply rename_mono; [done|].
        intros r Hrx. apply Hr, elem_of_obj_refs.
        destruct x; simpl in Hrx; try by apply elem_of_nil in Hrx.
        apply list_elem_of_singleton in Hrx. by subst.
      * intros r Hro. destruct (Hr r Hro) as [x Hx].
        exists x. by eapply lookup_weaken.
    + destruct (Hn2 l l' Hm2 Hm1) as (Hb & Hl & o & Ho & Ho' & Hr).
      split_and!; [lia | lia | done |].
      exists o. split_and!; [|done|done].
      rewrite <- Ho. symmetry. apply Ha1. lia.
Qed.

Lemma closed_below_copied n0 m h m' h' :
  closed_below n0 h → copied n0 m h m' h' → closed_below n0 h'.
Proof.
  intros [Hn Hc] (_ & Hl & Ha & _). split; [lia|].
  intros l o Hl0 Ho. apply (Hc l o Hl0). rewrite <- Ho. symmetry. apply Ha. lia.
Qed.

Lemma val_refs_ref r v : r ∈ val_refs v ↔ v = VRef r.
Proof.
  destruct v; simpl; rewrite ?list_elem_of_singleton, ?elem_of_nil;
    split; try done; congruence.
Qed.

Lemma closed_below_children n0 h l o :
  closed_below n0 h → l < n0 → h !! l = Some o → Forall (val_in n0) (children o).
Proof.
  intros [_ Hc] Hl Ho. apply Forall_forall. intros x Hx r Hr.
  apply val_refs_ref in Hr as ->. eapply Hc; [done | done |].
  by apply elem_of_obj_refs.
Qed.

Lemma copy_all_spec n0 (f : pyval → memo * heap → option (pyval * (memo * heap))) :
  (∀ v m h res, closed_below n0 h → val_in n0 v →
     f v (m, h) = Some res → copy_post n0 v m h res) →
  ∀ vs m h vs' m' h',
    closed_below n0 h → Forall (val_in n0) vs →
    copy_all f vs (m, h) = Some (vs', (m', h')) →
    copied n0 m h m' h' ∧ vs' = rename m' <$> vs ∧
    ∀ v r, v ∈ vs → r ∈ val_refs v → is_Some (m' !! r).
Proof.
  intros Hf vs. induction vs as [|v vs IH]; intros m h vs' m' h' Hc Hvs Hrun.
  - simpl in Hrun. simplify_eq. split_and!; [apply copied_refl | done |].
    intros v r Hv. by apply elem_of_nil in Hv.
  - simpl in Hrun. apply Forall_cons in Hvs as [Hv Hvs].
    destruct (f v (m, h)) as [[v1 [m1 h1]]|] eqn:Hfv; [|done].
    destruct (copy_all f vs (m1, h1)) as [[vs1 [m2 h2]]|] eqn:Hrest; [|done].
    simplify_eq.
    destruct (Hf _ _ _ _ Hc Hv Hfv) as (Hcp1 & Hv1 & Hr1). simpl in *.
    pose proof (closed_below_copied _ _ _ _ _ Hc Hcp1) as Hc1.
    destruct (IH _ _ _ _ _ Hc1 Hvs Hrest) as (Hcp2 & Hvs1 & Hr2).
    split_and!.
    + eapply copied_trans; [by destruct Hc | done | done].
    + csimpl. f_equal; [|done]. subst v1. symmetry. apply rename_mono; [|done].
      by destruct Hcp2.
    + intros x r Hx Hr. apply elem_of_cons in Hx as [->|Hx]; [|by eapply Hr2].
      destruct (Hr1 r Hr) as [y Hy]. exists y.
      eapply lookup_weaken; [done|]. by destruct Hcp2.
Qed.

Lemma deepcopy_val_spec n0 fuel :
  ∀ v m h res, closed_below n0 h → val_in n0 v →
    deepcopy_val fuel v (m, h) = Some res → copy_post n0 v m h res.
Proof.
  induction fuel as [|fuel IH]; intros v m h res Hc Hv Hrun.
  - destruct v as [| | |l]; simpl in Hrun; simplify_eq;
      try (split_and!; [apply copied_refl | done | by intros r Hr%elem_of_nil]).
    destruct (m !! l) as [l'|] eqn:Hm; [|done]. simplify_eq.
    split_and!; [apply copied_refl | simpl; by rewrite Hm |].
    intros r Hr%val_refs_ref. simplify_eq. by eexists.
  - destruct v as [| | |l]; simpl in Hrun; simplify_eq;
      try (split_and!; [apply copied_refl | done | by intros r Hr%elem_of_nil]).
    destruct (m !! l) as [l'|] eqn:Hm.
    { simplify_eq. split_and!; [apply copied_refl | simpl; by rewrite Hm |].
      intros r Hr%val_refs_ref. simplify_eq. by eexists. }
    destruct (h !! l) as [o|] eqn:Ho; [|done].
    destruct (copy_all _ _ _) as [[vs' [m2 h2]]|] eqn:Hrest; [|done].
    simplify_eq.
    assert (l < n0) as Hl by (apply Hv; by apply val_refs_ref).
    assert (closed_below n0 (h ++ [blank o])) as Hc1.
    { destruct Hc as [Hn Hc]. split; [rewrite length_app; lia|].
      intros l0 o0 Hl0 Ho0. apply (Hc l0 o0 Hl0).
      rewrite <- Ho0. symmetry. apply lookup_app_l. lia. }
    destruct (copy_all_spec n0 _ IH _ _ _ _ _ _ Hc1
                (closed_below_children _ _ _ _ Hc Hl Ho) Hrest)
      as ((Hs & Hlen & Ha & Hnew) & Hvs & Hrefs).
    rewrite length_app in Hlen, Ha. simpl in Hlen, Ha.
    assert (m2 !! l = Some (length h)) as Hm2.
    { eapply lookup_weaken; [|exact Hs]. apply lookup_insert_eq. }
    split_and!; simpl.
    + split_and!.
      * etrans; [|exact Hs]. by apply insert_subseteq.
      * rewrite length_insert. lia.
      * intros l0 Hl0. rewrite list_lookup_insert_ne by lia.
        rewrite Ha by lia. apply lookup_app_l. lia.
      * intros l0 l0' Hl0 Hm0. rewrite length_insert.
        destruct (decide (l0 = l)) as [->|Hne].
        -- assert (l0' = length h) as -> by congruence.
           split_and!; [lia | lia | done |].
           exists o. split_and!; [done | |].
           ++ rewrite list_lookup_insert_eq by lia.
              by rewrite Hvs, with_children_map.
           ++ intros r Hr%elem_of_obj_refs. eapply Hrefs; [done|].
              by apply val_refs_ref.
        -- destruct (Hnew l0 l0') as (Hb & Hl0n & o0 & Ho0 & Ho0' & Hr0);
             [done | by rewrite lookup_insert_ne | ].
           rewrite length_app in Hb. simpl in Hb.
           split_and!; [lia | lia | done |].
           exists o0. split_and!; [| |done].
           ++ rewrite <- Ho0. symmetry. apply lookup_app_l. destruct Hc. lia.
           ++ rewrite list_lookup_insert_ne by lia. done.
    + by rewrite Hm2.
    + intros r Hr%list_elem_of_singleton. simplify_eq. by eexists.
Qed.

Lemma pending_mono n0 m m' : m ⊆ m' → pending n0 m' ≤ pending n0 m.
Proof.
  intros Hs. apply subseteq_size. intros x [Hx Hm]%elem_of_difference.
  apply elem_of_difference. split; [done|].
  intros Hin. apply Hm. by apply (subseteq_dom _ _ Hs).
Qed.

Lemma pending_insert n0 m l x :
  l < n0 → m !! l = None → pending n0 (<[l:=x]> m) < pending n0 m.
Proof.
  intros Hl Hm. apply subset_size. rewrite dom_insert_L.
  apply not_elem_of_dom in Hm.
  assert (l ∈ (set_seq 0 n0 : gset nat)) as Hin by (apply elem_of_set_seq; lia).
  split.
  - intros y [Hy Hd]%elem_of_difference. apply elem_of_difference.
    split; [done|]. intros Hym. apply Hd, elem_of_union. by right.
  - intros Hsub. specialize (Hsub l).
    rewrite !elem_of_difference, elem_of_union, elem_of_singleton in Hsub.
    destruct Hsub as [_ Hsub]; [done|]. apply Hsub. by left.
Qed.

Lemma pending_empty n0 : pending n0 ∅ = n0.
Proof.
  unfold pending. rewrite dom_empty_L, difference_empty_L. apply size_set_seq.
Qed.

Lemma copy_all_total n0 k (f : pyval → memo * heap → option (pyval * (memo * heap))) :
  (∀ v m h res, closed_below n0 h → val_in n0 v →
     f v (m, h) = Some res → copy_post n0 v m h res) →
  (∀ v m h, closed_below n0 h → val_in n0 v → pending n0 m ≤ k →
     is_Some (f v (m, h))) →
  ∀ vs m h, closed_below n0 h → Forall (val_in n0) vs → pending n0 m ≤ k →
    is_Some (copy_all f vs (m, h)).
Proof.
  intros Hspec Hf vs. induction vs as [|v vs IH]; intros m h Hc Hvs Hk; [by eexists|].
  apply Forall_cons in Hvs as [Hv Hvs]. simpl.
  destruct (Hf v m h Hc Hv Hk) as [[v1 [m1 h1]] Hfv]. rewrite Hfv.
  destruct (Hspec _ _ _ _ Hc Hv Hfv) as (Hcp & _ & _). simpl in Hcp.
  destruct (IH m1 h1) as [[vs1 [m2 h2]] Hrest]; [| done | |].
  - by eapply closed_below_copied.
  - etrans; [apply pending_mono; by destruct Hcp | done].
  - rewrite Hrest. by eexists.
Qed.

Lemma deepcopy_val_total n0 fuel :
  ∀ v m h, closed_below n0 h → val_in n0 v → pending n0 m < fuel →
    is_Some (deepcopy_val fuel v (m, h)).
Proof.
  induction fuel as [|fuel IH]; intros v m h Hc Hv Hk; [lia|].
  destruct v as [| | |l]; simpl; try by eexists.
  destruct (m !! l) as [l'|] eqn:Hm; [by eexists|].
  assert (l < n0) as Hl by (apply Hv; by apply val_refs_ref).
  destruct Hc as [Hn Hcl].
  destruct (lookup_lt_is_Some_2 h l) as [o Ho]; [lia|]. rewrite Ho.
  destruct (copy_all_total n0 (pending n0 (<[l:=length h]> m)) (deepcopy_val fuel)
              (deepcopy_val_spec n0 fuel)) with
    (vs := children o) (m := <[l:=length h]> m) (h := h ++ [blank o])
    as [[vs' [m2 h2]] Hrest].
  - intros v0 m0 h0 Hc0 Hv0 Hk0. apply IH; [done | done |].
    pose proof (pending_insert n0 m l (length h) Hl Hm). lia.
  - split; [rewrite length_app; lia|].
    intros l0 o0 Hl0 Ho0. apply (Hcl l0 o0 Hl0).
    rewrite <- Ho0. symmetry. apply lookup_app_l. lia.
  - by eapply closed_below_children.
  - done.
  - rewrite Hrest. by eexists.
Qed.

(** A store that agrees with [h] on a set that confines [v] shows the same
    view of [v]. *)
Lemma view_of_agree (P : loc → Prop) h h1 :
  (∀ l o, P l → h !! l = Some o → ∀ r, r ∈ obj_refs o → P r) →
  (∀ l, P l → h1 !! l = h !! l) →
  ∀ d v, (∀ r, r ∈ val_refs v → P r) → view_of d h1 v = view_of d h v.
Proof.
  intros Hcl Hag d. induction d as [|d IH]; intros v Hv;
    destruct v as [| | |l]; simpl; try done.
  assert (P l) as Hl by (apply Hv; by apply val_refs_ref).
  rewrite (Hag l Hl). destruct (h !! l) as [o|] eqn:Ho; [|done].
  f_equal. apply list_fmap_ext. intros i x Hx. apply IH.
  intros r Hr%val_refs_ref. subst x.
  eapply Hcl; [done | done |]. apply elem_of_obj_refs.
  by eapply list_elem_of_lookup_2.
Qed.

Lemma confined_agree (P : loc → Prop) h h1 v :
  confined P h v → (∀ l, P l → h1 !! l = h !! l) → confined P h1 v.
Proof.
  intros [Hv Hcl] Hag. split; [done|].
  intros l o Hl Ho. apply (Hcl l o Hl). by rewrite <- Hag.
Qed.

Lemma confined_reachable (P : loc → Prop) h v l :
  confined P h v → reachable h v l → P l.
Proof.
  intros [Hv Hcl] (r & Hr & Hreach). apply Hv in Hr.
  induction Hreach as [|l o r l' Ho Hro _ IH]; [done|].
  apply IH. by eapply Hcl.
Qed.

(** The copy of a memo entry shows what the original shows. *)
Lemma view_of_renamed m h h' :
  (∀ l l', m !! l = Some l' →
     ∃ o, h !! l = Some o ∧ h' !! l' = Some (obj_map (rename m) o) ∧
          ∀ r, r ∈ obj_refs o → is_Some (m !! r)) →
  ∀ d v, (∀ r, r ∈ val_refs v → is_Some (m !! r)) →
    view_of d h' (rename m v) = view_of d h v.
Proof.
  intros Hm d. induction d as [|d IH]; intros v Hv;
    destruct v as [| | |l]; simpl; try done.
  - destruct (Hv l) as [l' Hl]; [by apply val_refs_ref|]. by rewrite Hl.
  - destruct (Hv l) as [l' Hl]; [by apply val_refs_ref|]. rewrite Hl.
    destruct (Hm l l' Hl) as (o & Ho & Ho' & Hr). rewrite Ho, Ho'.
    rewrite obj_map_const, children_obj_map. f_equal.
    rewrite <- list_fmap_compose. apply list_fmap_ext. intros i x Hx. simpl.
    apply IH. intros r Hrx%val_refs_ref. subst x.
    apply Hr, elem_of_obj_refs. by eapply list_elem_of_lookup_2.
Qed.

Lemma closed_below_app n0 h o : closed_below n0 h → closed_below n0 (h ++ [o]).
Proof.
  intros [Hn Hc]. split; [rewrite length_app; lia|].
  intros l0 o0 Hl0 Ho0. apply (Hc l0 o0 Hl0).
  rewrite <- Ho0. symmetry. apply lookup_app_l. lia.
Qed.

(** Whether a copy returns depends on the objects it starts from and on
    which of them are in the memo, not on the rest of the store. *)
Lemma copy_all_alike n0 (f : pyval → memo * heap → option (pyval * (memo * heap))) :
  (∀ v m h res, closed_below n0 h → val_in n0 v →
     f v (m, h) = Some res → copy_post n0 v m h res) →
  (∀ v m1 h1 m2 h2, closed_below n0 h1 → closed_below n0 h2 →
     (∀ l, l < n0 → h1 !! l = h2 !! l) → dom m1 = dom m2 → val_in n0 v →
     alike (f v (m1, h1)) (f v (m2, h2))) →
  ∀ vs m1 h1 m2 h2, closed_below n0 h1 → closed_below n0 h2 →
    (∀ l, l < n0 → h1 !! l = h2 !! l) → dom m1 = dom m2 →
    Forall (val_in n0) vs →
    alike (copy_all f vs (m1, h1)) (copy_all f vs (m2, h2)).
Proof.
  intros Hspec Hf vs. induction vs as [|v vs IH];
    intros m1 h1 m2 h2 Hc1 Hc2 Hag Hd Hvs; [done|].
  apply Forall_cons in Hvs as [Hv Hvs]. simpl.
  pose proof (Hf v m1 h1 m2 h2 Hc1 Hc2 Hag Hd Hv) as Hfv.
  destruct (f v (m1, h1)) as [[v1 [m1' h1']]|] eqn:H1;
    destruct (f v (m2, h2)) as [[v2 [m2' h2']]|] eqn:H2; try done.
  simpl in Hfv.
  destruct (Hspec _ _ _ _ Hc1 Hv H1) as (Hcp1 & _ & _).
  destruct (Hspec _ _ _ _ Hc2 Hv H2) as (Hcp2 & _ & _). simpl in Hcp1, Hcp2.
  assert (∀ l, l < n0 → h1' !! l = h2' !! l) as Hag'.
  { intros l Hl. destruct Hcp1 as (_ & _ & Ha1 & _), Hcp2 as (_ & _ & Ha2 & _).
    destruct Hc1, Hc2. rewrite Ha1, Ha2 by lia. by apply Hag. }
  pose proof (IH m1' h1' m2' h2' (closed_below_copied _ _ _ _ _ Hc1 Hcp1)
                (closed_below_copied _ _ _ _ _ Hc2 Hcp2) Hag' Hfv Hvs) as Hrest.
  destruct (copy_all f vs (m1', h1')) as [[vs1 [m1'' h1'']]|];
    destruct (copy_all f vs (m2', h2')) as [[vs2 [m2'' h2'']]|]; done.
Qed.

Lemma deepcopy_val_alike n0 fuel :
  ∀ v m1 h1 m2 h2, closed_below n0 h1 → closed_below n0 h2 →
    (∀ l, l < n0 → h1 !! l = h2 !! l) → dom m1 = dom m2 → val_in n0 v →
    alike (deepcopy_val fuel v (m1, h1)) (deepcopy_val fuel v (m2, h2)).
Proof.
  induction fuel as [|fuel IH]; intros v m1 h1 m2 h2 Hc1 Hc2 Hag Hd Hv;
    (destruct v as [| | |l]; simpl; try done);
    (destruct (m1 !! l) as [l1|] eqn:Hm1;
     [ assert (is_Some (m2 !! l)) as [l2 Hm2]
         by (apply elem_of_dom; rewrite <- Hd; apply elem_of_dom; by eexists);
       by rewrite Hm2
     | assert (m2 !! l = None) as Hm2
         by (apply not_elem_of_dom; rewrite <- Hd; by apply not_elem_of_dom);
       rewrite Hm2 ]); [done|].
  assert (l < n0) as Hl by (apply Hv; by apply val_refs_ref).
  rewrite <- (Hag l Hl).
  destruct (h1 !! l) as [o|] eqn:Ho; [|done].
  assert (alike
    (copy_all (deepcopy_val fuel) (children o) (<[l:=length h1]> m1, h1 ++ [blank o]))
    (copy_all (deepcopy_val fuel) (children o) (<[l:=length h2]> m2, h2 ++ [blank o])))
    as Hrest.
  { apply (copy_all_alike n0 _ (deepcopy_val_spec n0 fuel) IH).
    - by apply closed_below_app.
    - by apply closed_below_app.
    - intros l0 Hl0. destruct Hc1, Hc2.
      rewrite !lookup_app_l by lia. by apply Hag.
    - by rewrite !dom_insert_L, Hd.
    - exact (closed_below_children _ _ _ _ Hc1 Hl Ho). }
  destruct (copy_all _ _ (<[l:=length h1]> m1, _)) as [[vs1 [m1' h1']]|];
    destruct (copy_all _ _ (<[l:=length h2]> m2, _)) as [[vs2 [m2' h2']]|]; done.
Qed.

(** A value that fits the recursion limit in one store fits it in every
    store that keeps the objects of that one. *)
Lemma deepcopy_extends limit n0 h h1 v :
  closed_below n0 h → val_in n0 v → extends h h1 →
  is_Some (deepcopy limit h v) → is_Some (deepcopy limit h1 v).
Proof.
  intros Hc Hv [Hlen Hext] Hsome. unfold deepcopy in *.
  assert (closed_below n0 h1) as Hc1.
  { destruct Hc as [Hn Hcl]. split; [lia|].
    intros l o Hl Ho. apply (Hcl l o Hl). rewrite <- Ho. symmetry. apply Hext. lia. }
  assert (∀ l, l < n0 → h !! l = h1 !! l) as Hag.
  { intros l Hl. symmetry. apply Hext. destruct Hc. lia. }
  pose proof (deepcopy_val_alike n0 limit v ∅ h ∅ h1 Hc Hc1 Hag eq_refl Hv) as Hal.
  destruct (deepcopy_val limit v (∅, h)) as [[c [m h']]|]; [|by destruct Hsome].
  destruct (deepcopy_val limit v (∅, h1)) as [[c1 [m1 h1']]|]; [by eexists|done].
Qed.

(** A store of fewer objects than the limit never nests a copy too deep. *)
Lemma deepcopy_within limit n0 h v :
  closed_below n0 h → val_in n0 v → n0 < limit → is_Some (deepcopy limit h v).
Proof.
  intros Hc Hv Hn. unfold deepcopy.
  destruct (deepcopy_val_total n0 limit v ∅ h Hc Hv) as [[c [m h']] Hrun].
  { by rewrite pending_empty. }
  rewrite Hrun. by eexists.
Qed.

(** [copy.deepcopy(v)] on a store whose first [n0] objects are closed, for a
    value among them, when it returns: the store only grows; the copy shows
    what the original shows; and all that is reachable from the copy was
    allocated by this call. *)
Lemma deepcopy_correct limit n0 h v c h' :
  closed_below n0 h → val_in n0 v → deepcopy limit h v = Some (c, h') →
  ∃ P : loc → Prop,
    extends h h' ∧
    (∀ d, view_of d h' c = view_of d h v) ∧
    confined P h' c ∧ (∀ l, P l → length h ≤ l < length h').
Proof.
  intros Hc Hv. unfold deepcopy.
  destruct (deepcopy_val limit v (∅, h)) as [[c0 [m h0]]|] eqn:Hrun; [|done].
  intros [= -> ->].
  destruct (deepcopy_val_spec n0 _ _ _ _ _ Hc Hv Hrun)
    as ((_ & Hlen & Hag & Hnew) & Hc' & Hrefs). simpl in *.
  assert (∀ l l', m !! l = Some l' →
     length h ≤ l' < length h' ∧
     ∃ o, h !! l = Some o ∧ h' !! l' = Some (obj_map (rename m) o) ∧
          ∀ r, r ∈ obj_refs o → is_Some (m !! r)) as Hiso.
  { intros l l' Hl. destruct (Hnew l l' Hl (lookup_empty l)) as (? & ? & ?). done. }
  exists (λ l', ∃ l, m !! l = Some l'). split_and!; [done | | |].
  - intros d. subst c. apply view_of_renamed; [|done].
    intros l l' Hl. by destruct (Hiso l l' Hl).
  - split.
    + subst c. intros r Hr. destruct v as [| | |l]; simpl in Hr;
        try by apply elem_of_nil in Hr.
      destruct (Hrefs l) as [l' Hl]; [by apply val_refs_ref|].
      rewrite Hl in Hr. apply list_elem_of_singleton in Hr as ->. by exists l.
    + intros l' o' [l Hl] Ho' r Hr.
      destruct (Hiso l l' Hl) as (_ & o & Ho & Hcopy & Hor).
      rewrite Hcopy in Ho'. simplify_eq.
      apply elem_of_obj_refs in Hr. rewrite children_obj_map in Hr.
      apply list_elem_of_fmap in Hr as (x & Hx & Hxo).
      destruct x as [| | |r0]; simpl in Hx; try done.
      destruct (Hor r0) as [r' Hr']; [by apply elem_of_obj_refs|].
      rewrite Hr' in Hx. simplify_eq. by exists r0.
  - intros l' [l Hl]. by destruct (Hiso l l' Hl).
Qed.

End Deepcopy.

(** * Facts about the bot *)

(** Unfold the monad. *)
Ltac unfold_M :=
  unfold submit, attr, contains in *;
  unfold mbind, M_bind, mret, M_ret, raise, get_self, modify_self, get_store,
    emit_event, read in *.

Section FanOut.

Variable recursion_limit : nat.

Implicit Types (s : state) (b : IOTBOT) (h : heap) (v c context : pyval).

Lemma with_submitted_app subs1 subs2 b :
  with_submitted subs2 (with_submitted subs1 b) = with_submitted (subs1 ++ subs2) b.
Proof. unfold with_submitted, set_executor. simpl. by rewrite app_assoc. Qed.

Lemma with_submitted_nil b : with_submitted [] b = b.
Proof.
  unfold with_submitted, set_executor. rewrite app_nil_r.
  by destruct b as [? ? ? ? ? ? ? ? ? ? ? ? ? ? []].
Qed.

Lemma closed_below_extends n0 h h' :
  closed_below n0 h → extends h h' → closed_below n0 h'.
Proof.
  intros [Hn Hc] [Hl Ha]. split; [lia|].
  intros l o Hl0 Ho. apply (Hc l o Hl0). rewrite <- Ho. symmetry. apply Ha. lia.
Qed.

Lemma closed_below_confined n0 h v :
  closed_below n0 h → val_in n0 v → confined (λ l, l < n0) h v.
Proof. intros [_ Hc] Hv. split; [done|]. intros l o. apply Hc. Qed.

Lemma extends_trans h h1 h2 : extends h h1 → extends h1 h2 → extends h h2.
Proof.
  intros [Hl1 Ha1] [Hl2 Ha2]. split; [lia|].
  intros l Hl. rewrite Ha2 by lia. by apply Ha1.
Qed.

(** The fan-out loop on a context that [copy.deepcopy] can copy: it returns,
    hands one invocation per receiver to the pool in order, each on a fresh
    copy that shows what the context shows and sits in its own part of the
    store. *)
Lemma distribute_to_spec rs :
  ∀ s context n0,
    closed_below n0 (store s) → val_in n0 context →
    is_Some (deepcopy recursion_limit (store s) context) →
    ∃ cs h',
      distribute_to recursion_limit rs context s =
        (Returns (),
         {| self := with_submitted (invocations rs cs) (self s);
            store := h'; trace := trace s |}) ∧
      length cs = length rs ∧
      extends (store s) h' ∧
      Forall (λ c, ∀ d, view_of d h' c = view_of d (store s) context) cs ∧
      copies_from (length (store s)) h' cs.
Proof.
  induction rs as [|r rs IH]; intros s context n0 Hc Hv Hfit.
  - exists [], (store s). simpl. rewrite with_submitted_nil.
    split_and!; [by destruct s | done | done | done | done].
  - destruct Hfit as [[c h1] Hcopy].
    destruct (deepcopy_correct _ n0 (store s) context c h1 Hc Hv Hcopy)
      as (P & Hext & Hview & Hconf & HP).
    pose proof (closed_below_extends _ _ _ Hc Hext) as Hc1.
    assert (is_Some (deepcopy recursion_limit h1 context)) as Hfit1.
    { eapply deepcopy_extends; [exact Hc | exact Hv | exact Hext |].
      rewrite Hcopy. by eexists. }
    destruct (IH {| self := with_submitted [{| fn := Receive r c; done_callback := true |}] (self s);
                    store := h1; trace := trace s |} context n0 Hc1 Hv Hfit1)
      as (cs & h' & Hrun & Hlen & Hext' & Hviews & Hcopies).
    simpl in *.
    assert (∀ l, P l → h' !! l = h1 !! l) as Hag.
    { intros l Hl. apply Hext'. apply HP in Hl. lia. }
    exists (c :: cs), h'. split_and!.
    + unfold_M. unfold copy_deepcopy. rewrite Hcopy. simpl.
      fold (with_submitted [{| fn := Receive r c; done_callback := true |}] (self s)).
      rewrite Hrun. by rewrite with_submitted_app.
    + simpl. by rewrite Hlen.
    + by eapply extends_trans.
    + apply Forall_cons. split.
      * intros d. rewrite <- Hview.
        destruct Hconf as [Hcv Hcl]. by eapply view_of_agree.
      * eapply Forall_impl; [exact Hviews|]. simpl. intros ci Hci d.
        rewrite Hci.
        destruct (closed_below_confined _ _ _ Hc Hv) as [Hcv Hcl].
        eapply view_of_agree; [exact Hcl | | exact Hcv].
        intros l Hl. simpl in Hl. apply Hext. destruct Hc. lia.
    + exists (length h1), P. split_and!; [by destruct Hext | | done | done].
      by eapply confined_agree.
Qed.

(** The fan-out loop on a context nested too deep for [copy.deepcopy]: the
    first copy raises, before anything is handed to the pool. *)
Lemma distribute_to_too_deep rs s context :
  rs ≠ [] → deepcopy recursion_limit (store s) context = None →
  distribute_to recursion_limit rs context s =
    (Raises (Exn "RecursionError" "maximum recursion depth exceeded"), s).
Proof.
  intros Hrs Hdeep. destruct rs as [|r rs]; [done|].
  simpl. unfold_M. unfold copy_deepcopy. by rewrite Hdeep.
Qed.

Lemma copies_from_lookup cs :
  ∀ lo h' i c, copies_from lo h' cs → cs !! i = Some c →
    ∃ (a hi : nat) (P : loc → Prop), lo ≤ a ∧ a ≤ hi ∧ confined P h' c ∧
      (∀ l, P l → a ≤ l < hi) ∧ copies_from hi h' (drop (S i) cs).
Proof.
  induction cs as [|c0 cs IH]; intros lo h' i c Hcs Hi; [done|].
  destruct Hcs as (hi & P & Hlo & Hconf & HP & Hrest).
  destruct i as [|i]; simpl in Hi.
  - simplify_eq. exists lo, hi, P. simpl. split_and!; [lia | lia | done | done | done].
  - destruct (IH hi h' i c Hrest Hi) as (a & hi' & Q & Ha & Hab & HQc & HQ & Hdrop).
    exists a, hi', Q. split_and!; [lia | done | done | done | done].
Qed.

Lemma copies_from_apart lo h' cs i j ci cj :
  copies_from lo h' cs → i < j → cs !! i = Some ci → cs !! j = Some cj →
  ∃ P Q : loc → Prop, confined P h' ci ∧ confined Q h' cj ∧
    (∀ l, P l → lo ≤ l) ∧ (∀ l, Q l → lo ≤ l) ∧ ∀ l, P l → Q l → False.
Proof.
  intros Hcs Hij Hi Hj.
  destruct (copies_from_lookup _ _ _ _ _ Hcs Hi) as (a & hi & P & Ha & Hab & HPc & HP & Hdrop).
  assert (drop (S i) cs !! (j - S i) = Some cj) as Hj'.
  { rewrite lookup_drop. rewrite <- Hj. f_equal. lia. }
  destruct (copies_from_lookup _ _ _ _ _ Hdrop Hj') as (a' & b' & Q & Ha' & Hab' & HQc & HQ & _).
  exists P, Q. split_and!; [done | done | | |].
  - intros l Hl%HP. lia.
  - intros l Hl%HQ. lia.
  - intros l Hl%HP Hl'%HQ. lia.
Qed.

(** What is reachable from [v] is not reachable from [w], and a write to it
    does not touch what [w] shows, when the two are confined to disjoint
    sets. *)
Lemma confined_disjoint_reach (P Q : loc → Prop) h v w l :
  confined P h v → confined Q h w → (∀ x, P x → Q x → False) →
  reachable h v l → ¬ reachable h w l.
Proof.
  intros HP HQ Hdisj Hl%(confined_reachable P) Hl'%(confined_reachable Q); [|done..].
  by eapply Hdisj.
Qed.

Lemma apply_writes_other ws :
  ∀ h x, Forall (λ w : loc * pyobj, w.1 ≠ x) ws → apply_writes h ws !! x = h !! x.
Proof.
  induction ws as [|w ws IH]; intros h x Hws; [done|].
  apply Forall_cons in Hws as [Hw Hws]. simpl.
  unfold apply_writes in IH. rewrite IH by done. by apply list_lookup_insert_ne.
Qed.

Lemma confined_disjoint_write (P Q : loc → Prop) h v w ws d :
  confined P h v → confined Q h w → (∀ x, P x → Q x → False) →
  Forall (λ u : loc * pyobj, reachable h v u.1) ws →
  view_of d (apply_writes h ws) w = view_of d h w.
Proof.
  intros HP HQ Hdisj Hws.
  destruct HQ as [Hw Hcl]. eapply view_of_agree; [exact Hcl | | exact Hw].
  intros x Hx. apply apply_writes_other.
  eapply Forall_impl; [exact Hws|]. simpl. intros u Hu Heq.
  apply (confined_reachable P) in Hu; [|done]. rewrite Heq in Hu. by eapply Hdisj.
Qed.

End FanOut.

Section Session.

Variable model_map : event_name → Callable.
Variable plugin : PluginAPI.
Variable recursion_limit : nat.

Implicit Types (s : state) (b : IOTBOT) (h : heap) (a : action).

Lemma pool_grows_refl ok b : pool_grows ok b b.
Proof.
  exists []. rewrite app_nil_r. split; [by destruct (executor b) | done].
Qed.

Lemma pool_grows_same ok b b' : executor b' = executor b → pool_grows ok b b'.
Proof.
  intros He. exists []. rewrite app_nil_r, He. split; [by destruct (executor b) | done].
Qed.

Lemma pool_grows_one ok b sub :
  ok sub →
  pool_grows ok b
    (set_executor {| max_workers := max_workers (executor b);
                     submitted := submitted (executor b) ++ [sub] |} b).
Proof. intros Hok. exists [sub]. split; [done | by apply Forall_singleton]. Qed.

Lemma pool_grows_trans ok b1 b2 b3 :
  pool_grows ok b1 b2 → pool_grows ok b2 b3 → pool_grows ok b1 b3.
Proof.
  intros (subs1 & H1 & Hok1) (subs2 & H2 & Hok2). exists (subs1 ++ subs2).
  split; [|by apply Forall_app]. rewrite H2, H1. simpl. by rewrite app_assoc.
Qed.

(** The fan-out loop on any store: whatever it hands to the pool is a
    receiver invocation with the callback; it leaves the scheduler alone. *)
Lemma distribute_to_pool rs :
  ∀ s context,
    pool_grows (λ sub, done_callback sub = callback_by_kind sub ∧ is_RunPadding sub = false)
      (self s) (self (distribute_to recursion_limit rs context s).2) ∧
    scheduler (self (distribute_to recursion_limit rs context s).2) = scheduler (self s).
Proof.
  induction rs as [|r rs IH]; intros s context; [split; [apply pool_grows_refl | done]|].
  simpl. unfold_M. unfold copy_deepcopy.
  destruct (deepcopy recursion_limit (store s) context) as [[c h1]|]; simpl;
    [|split; [apply pool_grows_refl | done]].
  match goal with |- context [distribute_to recursion_limit rs context ?s1] =>
    destruct (IH s1 context) as [Hpool Hsched] end.
  simpl in *. split; [|done].
  eapply pool_grows_trans; [|exact Hpool]. by apply pool_grows_one.
Qed.

Lemma emit_GetWebConn_spec qqs s :
  emit_GetWebConn qqs s =
    (Returns (),
     {| self := self s; store := store s;
        trace := trace s ++ (Emitted "GetWebConn" <$> qqs) |}).
Proof.
  revert s. induction qqs as [|q qqs IH]; intros s; simpl.
  - rewrite app_nil_r. by destruct s.
  - unfold_M. rewrite IH. simpl. by rewrite <- app_assoc.
Qed.

(** [connect], case by case on the hook slot. *)
Lemma connect_eq s :
  connect s =
    match when_connected_do (self s) with
    | None => (Returns (), connected s)
    | Some (f, every_time) =>
        match body f VNone (store s) with
        | (Returns _, h) =>
            (Returns (),
             hook_called f h
               (if every_time then self (connected s)
                else set_when_do None (when_disconnected_do (self s)) (self (connected s)))
               (connected s))
        | (Raises e, h) => (Raises e, hook_called f h (self (connected s)) (connected s))
        end
    end.
Proof.
  unfold connect. unfold_M. rewrite emit_GetWebConn_spec. simpl.
  unfold connected, hook_called, starts_scheduler, scheduler_started, call.
  destruct (bool_decide (length (jobs (scheduler (self s))) ≠ 0)
            && negb (default false (started (scheduler (self s))))); simpl;
    (destruct (when_connected_do (self s)) as [[f every_time]|] eqn:Hw; simpl;
     [|by rewrite <- app_assoc]);
    destruct (body f VNone (store s)) as [[v|e] h]; simpl;
    rewrite ?Hw, <- ?app_assoc; simpl; try done;
    by destruct every_time.
Qed.

Lemma disconnect_eq s :
  disconnect s =
    let s1 := {| self := self s; store := store s;
                 trace := trace s ++ [Logged WARNING "Disconnected to the server!" []] |} in
    match when_disconnected_do (self s) with
    | None => (Returns (), s1)
    | Some (f, every_time) =>
        match body f VNone (store s) with
        | (Returns _, h) =>
            (Returns (),
             hook_called f h
               (if every_time then self s
                else set_when_do (when_connected_do (self s)) None (self s))
               s1)
        | (Raises e, h) => (Raises e, hook_called f h (self s) s1)
        end
    end.
Proof.
  unfold disconnect. unfold_M. simpl. unfold hook_called, call.
  destruct (when_disconnected_do (self s)) as [[f every_time]|] eqn:Hw; simpl; [|done].
  destruct (body f VNone (store s)) as [[v|e] h]; simpl; rewrite ?Hw; try done.
  by destruct every_time.
Qed.

(** The three message handlers, case by case: construction, log record,
    blacklist, middleware, hand-over to the pool. *)
Lemma handler_of_eq name msg s :
  handler_of model_map name msg s =
    match body (model_map name) msg (store s) with
    | (Raises e, h1) => (Raises e, {| self := self s; store := h1; trace := trace s |})
    | (Returns context, h1) =>
        match getattr h1 context "data" with
        | None =>
            (Raises (Exn "AttributeError" "data"),
             {| self := self s; store := h1; trace := trace s |})
        | Some data =>
            let tr := trace s ++ [info_of h1 context data] in
            match blacklist_verdict name (self s) h1 context with
            | Raises e => (Raises e, {| self := self s; store := h1; trace := tr |})
            | Returns true => (Returns (), {| self := self s; store := h1; trace := tr |})
            | Returns false =>
                match middleware_of name (self s) with
                | None =>
                    (Returns (),
                     {| self := with_submitted [dispatch name context] (self s);
                        store := h1; trace := tr |})
                | Some mw =>
                    let tr' := tr ++ [Called (__name__ mw) context] in
                    match body mw context h1 with
                    | (Raises e, h2) =>
                        (Raises e, {| self := self s; store := h2; trace := tr' |})
                    | (Returns new_context, h2) =>
                        if isinstance_type_of h2 new_context context
                        then
                          (Returns (),
                           {| self := with_submitted [dispatch name new_context] (self s);
                              store := h2; trace := tr' |})
                        else (Returns (), {| self := self s; store := h2; trace := tr' |})
                    end
                end
            end
        end
    end.
Proof.
  destruct name; simpl;
    unfold group_msg_handler, friend_msg_handler, event_msg_handler,
      construct, log_context, call, blacklist_verdict; unfold_M;
    unfold attr_in; simpl;
    (destruct (body (model_map _) msg (store s)) as [[context|e] h1]; simpl; [|done]);
    (destruct (getattr h1 context "data") as [data|]; simpl; [|done]);
    try (destruct (getattr h1 context _) as [ident|]; simpl; [|done];
         destruct (contains_in _ ident h1) as [[]|]; simpl; try done);
    (match goal with |- context [match ?mw with Some _ => _ | None => _ end] =>
       destruct mw as [mw'|] eqn:Hmw end; simpl; [|done]);
    (destruct (body mw' context h1) as [[new_context|e] h2]; simpl; [|done]);
    by destruct (isinstance_type_of h2 new_context context).
Qed.

Lemma connect_pool s :
  executor (self (connect s).2) = executor (self (connected s)) ∧
  scheduler (self (connect s).2) = scheduler (self (connected s)).
Proof.
  rewrite connect_eq.
  destruct (when_connected_do (self s)) as [[f []]|]; [| |done];
    by destruct (body f VNone (store s)) as [[v|e] h].
Qed.

(** Every action but [Connect]: what it hands to the pool carries the
    callback flag of its kind and is not the scheduler loop; the size of
    the pool and the [started] flag stay. *)
Lemma perform_pool a s :
  a ≠ Connect →
  pool_grows (λ sub, done_callback sub = callback_by_kind sub ∧ is_RunPadding sub = false)
    (self s) (self (perform model_map plugin recursion_limit a s).2) ∧
  started (scheduler (self (perform model_map plugin recursion_limit a s).2))
    = started (scheduler (self s)).
Proof.
  intros Ha. destruct a; try done; simpl.
  - rewrite disconnect_eq. simpl.
    destruct (when_disconnected_do (self s)) as [[f []]|];
      try destruct (body f VNone (store s)) as [[v|e] h]; simpl;
      (split; [by apply pool_grows_same | done]).
  - rewrite handler_of_eq.
    destruct (body (model_map name) msg (store s)) as [[context|e] h1];
      [|split; [by apply pool_grows_same | done]].
    destruct (getattr h1 context "data") as [data|];
      [|split; [by apply pool_grows_same | done]].
    simpl.
    destruct (blacklist_verdict name (self s) h1 context) as [[]|];
      try (split; [by apply pool_grows_same | done]).
    destruct (middleware_of name (self s)) as [mw|];
      [|split; [by apply pool_grows_one | done]].
    destruct (body mw context h1) as [[new_context|e] h2];
      [|split; [by apply pool_grows_same | done]].
    destruct (isinstance_type_of h2 new_context context);
      (split; [first [by apply pool_grows_one | by apply pool_grows_same] | done]).
  - destruct name; simpl;
      unfold group_context_distributor, friend_context_distributor,
        event_context_distributor; unfold_M;
      (match goal with |- context [distribute_to recursion_limit ?rs context s] =>
         destruct (distribute_to_pool rs s context) as [Hpool Hsched] end);
      (split; [done | by rewrite Hsched]).
  - unfold finish, thread_pool_callback, logger_catch. unfold_M.
    destruct (done_callback sub), worker; simpl;
      (split; [by apply pool_grows_same | done]).
  - destruct func; unfold_M; simpl; (split; [by apply pool_grows_same | done]).
  - destruct func; unfold_M; simpl; (split; [by apply pool_grows_same | done]).
  - destruct name; unfold_M; simpl; (split; [by apply pool_grows_same | done]).
  - destruct name; simpl;
      unfold register_group_context_middleware, register_friend_context_middleware,
        register_event_context_middleware; unfold_M; simpl;
      (match goal with |- context [match ?mw with Some _ => _ | None => _ end] =>
         destruct mw end); simpl; (split; [by apply pool_grows_same | done]).
  - split; [by apply pool_grows_same | done].
  - split; [by apply pool_grows_same | done].
  - split; [by apply pool_grows_same | done].
  - split; [by apply pool_grows_same | done].
  - split; [by apply pool_grows_same | done].
  - split; [by apply pool_grows_same | done].
  - split; [by apply pool_grows_same | done].
  - split; [by apply pool_grows_same | done].
Qed.

Lemma run_session_snoc s acts a :
  run_session model_map plugin recursion_limit s (acts ++ [a]) =
    step model_map plugin recursion_limit (run_session model_map plugin recursion_limit s acts) a.
Proof. unfold run_session. by rewrite foldl_app. Qed.

(** What one step does to the pool and to the [started] flag. *)
Lemma step_pool s a :
  pool_grows (λ sub, done_callback sub = callback_by_kind sub)
    (self s) (self (step model_map plugin recursion_limit s a)) ∧
  padding_submissions (step model_map plugin recursion_limit s a) =
    padding_submissions s
    + (if is_Connect a && starts_scheduler (self s) then 1 else 0) ∧
  scheduler_started (self (step model_map plugin recursion_limit s a)) =
    scheduler_started (self s)
    || (is_Connect a && starts_scheduler (self s)).
Proof.
  unfold step. assert (a = Connect ∨ (a ≠ Connect ∧ is_Connect a = false)) as [->|[Hne Hf]]
    by (destruct a; auto).
  - simpl. destruct (connect_pool s) as [He Hs].
    unfold pool_grows, padding_submissions, scheduler_started. rewrite He, Hs. clear He Hs.
    unfold connected. simpl.
    destruct (starts_scheduler (self s)) eqn:Hstart; simpl.
    + split_and!.
      * exists [{| fn := RunPadding; done_callback := true |}].
        split; [done | by apply Forall_singleton].
      * rewrite filter_app, length_app. simpl. done.
      * by rewrite orb_true_r.
    + split_and!; [|lia | by rewrite orb_false_r].
      exists []. rewrite app_nil_r. split; [by destruct (executor (self s)) | done].
  - rewrite Hf. simpl. rewrite orb_false_r.
    destruct (perform_pool a s Hne) as [(subs & He & Hok) Hst].
    split_and!.
    + exists subs. split; [done|]. eapply Forall_impl; [exact Hok|]. by intros ? [].
    + unfold padding_submissions. rewrite He. simpl.
      rewrite filter_app, length_app.
      replace (filter _ subs) with (@nil Submission); [simpl; lia|].
      symmetry. clear He. induction subs as [|x subs IH]; [done|].
      apply Forall_cons in Hok as [[_ Hx] Hok].
      rewrite filter_cons_False; [by apply IH | by rewrite Hx].
    + unfold scheduler_started. by rewrite Hst.
Qed.

Lemma run_session_max_workers acts :
  ∀ s, max_workers (executor (self (run_session model_map plugin recursion_limit s acts)))
       = max_workers (executor (self s)).
Proof.
  induction acts as [|a acts IH]; intros s; [done|]. simpl. rewrite IH.
  destruct (step_pool s a) as [(subs & He & _) _]. by rewrite He.
Qed.

Lemma run_session_callbacks acts :
  ∀ s, Forall (λ sub, done_callback sub = callback_by_kind sub)
         (submitted (executor (self s))) →
       Forall (λ sub, done_callback sub = callback_by_kind sub)
         (submitted (executor (self (run_session model_map plugin recursion_limit s acts)))).
Proof.
  induction acts as [|a acts IH]; intros s Hs; [done|]. simpl. apply IH.
  destruct (step_pool s a) as [(subs & He & Hok) _]. rewrite He. simpl.
  by apply Forall_app.
Qed.

(** The scheduler loop is in the pool at most once, and only once the
    [started] flag is set. *)
Lemma run_session_padding acts :
  ∀ s, padding_submissions s = 0 ∨
         (padding_submissions s = 1 ∧ scheduler_started (self s) = true) →
       let s' := run_session model_map plugin recursion_limit s acts in
       padding_submissions s' = 0 ∨
         (padding_submissions s' = 1 ∧ scheduler_started (self s') = true).
Proof.
  induction acts as [|a acts IH]; intros s Hs; [done|]. simpl. apply IH.
  destruct (step_pool s a) as (_ & Hn & Hst). rewrite Hn, Hst.
  unfold starts_scheduler.
  destruct (is_Connect a), (bool_decide (length (jobs (scheduler (self s))) ≠ 0)),
    (scheduler_started (self s)); simpl in *; lia.
Qed.

End Session.

Section Hooks.

Implicit Types (s : state) (f : Callable) (tr : list event).

Lemma calls_of_app name tr1 tr2 :
  calls_of name (tr1 ++ tr2) = calls_of name tr1 + calls_of name tr2.
Proof. unfold calls_of. by rewrite filter_app, length_app. Qed.

Lemma calls_of_emitted name qqs : calls_of name (Emitted "GetWebConn" <$> qqs) = 0.
Proof.
  unfold calls_of. induction qqs as [|q qqs IH]; [done|].
  csimpl. by rewrite filter_cons_False.
Qed.

Lemma calls_of_call f arg : calls_of (__name__ f) [Called (__name__ f) arg] = 1.
Proof.
  unfold calls_of. rewrite filter_cons_True; [done|].
  simpl. by rewrite bool_decide_eq_true_2.
Qed.

Lemma calls_of_connected name s :
  calls_of name (trace (connected s)) = calls_of name (trace s).
Proof.
  unfold connected. simpl. rewrite calls_of_app.
  change (Logged ?l ?m ?a :: ?tr) with ([Logged l m a] ++ tr).
  rewrite calls_of_app, calls_of_emitted. simpl. lia.
Qed.

Lemma when_connected_do_connected s :
  when_connected_do (self (connected s)) = when_connected_do (self s).
Proof. unfold connected. simpl. by destruct (starts_scheduler (self s)). Qed.

(** [connect] with a hook in the slot: the hook is called once; a one-shot
    hook that returns leaves the slot empty, any other outcome leaves the
    slot as it was. *)
Lemma connect_hook s f every_time :
  when_connected_do (self s) = Some (f, every_time) →
  calls_of (__name__ f) (trace (connect s).2) = S (calls_of (__name__ f) (trace s)) ∧
  when_connected_do (self (connect s).2) =
    match (body f VNone (store s)).1, every_time with
    | Returns _, false => None
    | _, _ => Some (f, every_time)
    end.
Proof.
  intros Hslot. rewrite connect_eq, Hslot.
  destruct (body f VNone (store s)) as [[v|e] h]; unfold hook_called;
    cbn [fst snd trace self];
    rewrite calls_of_app, calls_of_connected, calls_of_call;
    (split; [lia|]); destruct every_time; cbn [when_connected_do set_when_do];
    by rewrite ?when_connected_do_connected.
Qed.

(** A hook that raises: the exception leaves [connect] before the line that
    clears the slot, so even a one-shot hook stays registered. *)
Lemma connect_hook_raises s f every_time e h :
  when_connected_do (self s) = Some (f, every_time) →
  body f VNone (store s) = (Raises e, h) →
  (connect s).1 = Raises e ∧
  when_connected_do (self (connect s).2) = Some (f, every_time).
Proof.
  intros Hslot Hf. split; [by rewrite connect_eq, Hslot, Hf|].
  destruct (connect_hook s f every_time Hslot) as [_ ->]. by rewrite Hf.
Qed.

Lemma connect_no_hook name s :
  when_connected_do (self s) = None →
  calls_of name (trace (connect s).2) = calls_of name (trace s) ∧
  when_connected_do (self (connect s).2) = None.
Proof.
  intros Hslot. rewrite connect_eq, Hslot. cbn [snd].
  by rewrite calls_of_connected, when_connected_do_connected.
Qed.

Lemma disconnect_hook s f every_time :
  when_disconnected_do (self s) = Some (f, every_time) →
  calls_of (__name__ f) (trace (disconnect s).2) = S (calls_of (__name__ f) (trace s)) ∧
  when_disconnected_do (self (disconnect s).2) =
    match (body f VNone (store s)).1, every_time with
    | Returns _, false => None
    | _, _ => Some (f, every_time)
    end.
Proof.
  intros Hslot. rewrite disconnect_eq. simpl. rewrite Hslot.
  destruct (body f VNone (store s)) as [[v|e] h]; simpl;
    rewrite !calls_of_app, calls_of_call;
    (split; [unfold calls_of at 2; rewrite filter_cons_False by done; simpl; lia|]);
    by destruct every_time.
Qed.

Lemma disconnect_no_hook name s :
  when_disconnected_do (self s) = None →
  calls_of name (trace (disconnect s).2) = calls_of name (trace s) ∧
  when_disconnected_do (self (disconnect s).2) = None.
Proof.
  intros Hslot. rewrite disconnect_eq. simpl. rewrite Hslot. simpl.
  rewrite calls_of_app. split; [|done].
  unfold calls_of at 2. rewrite filter_cons_False by done. simpl. lia.
Qed.

End Hooks.

(** * The claims *)

Section Claims.

Variable model_map : event_name → Callable.
Variable config : Config.
Variable webhook : Webhook.
Variable plugin : PluginAPI.
Variable recursion_limit : nat.

Implicit Types (s : state) (b : IOTBOT) (h : heap) (a : action).

(** C1, as amended.  The pool is sized by the rule
    [min(50, 2 * (friend + group + event handlers + 3))] once, when the bot
    is constructed; no later action on the bot (hand-registration, plugin
    load, reload, remove or recover, or any other) changes its size. *)
Theorem pool_sized_at_construction qq_arg use_plugins plugin_dir gb fb h acts :
  let b0 := __init__ config webhook plugin qq_arg use_plugins plugin_dir gb fb in
  max_workers (executor b0) = sizing_rule b0 ∧
  max_workers (executor (self (run_session model_map plugin recursion_limit (fresh b0 h) acts)))
    = max_workers (executor b0).
Proof.
  split; [|apply run_session_max_workers].
  unfold sizing_rule, __init__, refresh_executor. cbn -[Nat.min Nat.mul].
  rewrite !length_app. f_equal. lia.
Qed.

(** C4.  For each category: registering a middleware on an empty slot
    returns and fills the slot; registering while the slot is occupied
    raises [Exception] and leaves the bot as it was, so a second
    registration after a first fails and the first stays. *)
Theorem second_middleware_rejected name mw1 mw2 s :
  middleware_of name (self s) = None →
  let r1 := register_context_middleware name mw1 s in
  let r2 := register_context_middleware name mw2 r1.2 in
  r1.1 = Returns () ∧ middleware_of name (self r1.2) = Some mw1 ∧
  (∃ msg, r2.1 = Raises (Exn "Exception" msg)) ∧ r2.2 = r1.2 ∧
  ∀ s' mw, is_Some (middleware_of name (self s')) →
    (∃ msg, (register_context_middleware name mw s').1 = Raises (Exn "Exception" msg)) ∧
    (register_context_middleware name mw s').2 = s'.
Proof.
  intros Hfree.
  destruct name; simpl in *;
    unfold register_group_context_middleware, register_friend_context_middleware,
      register_event_context_middleware; unfold_M; simpl; rewrite Hfree; simpl;
    (split_and!; [done | done | by eexists | done |]);
    intros s' mw [mw0 Hmw]; rewrite Hmw; simpl; (split; [by eexists | done]).
Qed.

(** C7.  In any session on a freshly constructed bot the scheduler loop is
    handed to the pool at most once.  A step hands it over exactly when it
    is a [connect] that finds at least one job and the [started] flag not
    set; that [connect] sets the flag, and no step clears it. *)
Theorem scheduler_loop_started_once qq_arg use_plugins plugin_dir gb fb h acts :
  let b0 := __init__ config webhook plugin qq_arg use_plugins plugin_dir gb fb in
  padding_submissions (run_session model_map plugin recursion_limit (fresh b0 h) acts) ≤ 1 ∧
  ∀ s a,
    padding_submissions (step model_map plugin recursion_limit s a) =
      padding_submissions s
      + (if is_Connect a && starts_scheduler (self s) then 1 else 0) ∧
    scheduler_started (self (step model_map plugin recursion_limit s a)) =
      scheduler_started (self s) || (is_Connect a && starts_scheduler (self s)).
Proof.
  intros b0.
  split; [|intros s a; by destruct (step_pool model_map plugin recursion_limit s a) as (_ & ? & ?)].
  pose proof (run_session_padding model_map plugin recursion_limit acts (fresh b0 h)) as Hinv.
  simpl in Hinv. destruct Hinv as [Hinv|[Hinv _]]; [by left | lia | lia].
Qed.

(** C10.  [when_connected] and [when_disconnected] called with a function
    never raise and overwrite the slot, whatever it held: after any sequence
    of registrations the slot holds the last function and flag. *)
Theorem hook_registration_replaces s regs f every_time :
  let as_connected := (λ r : Callable * bool, WhenConnected (Some r.1) r.2) <$> regs in
  let as_disconnected := (λ r : Callable * bool, WhenDisconnected (Some r.1) r.2) <$> regs in
  (when_connected (Some f) every_time s).1 = Returns RNone ∧
  (when_disconnected (Some f) every_time s).1 = Returns RNone ∧
  when_connected_do
    (self (run_session model_map plugin recursion_limit s
             (as_connected ++ [WhenConnected (Some f) every_time])))
    = Some (f, every_time) ∧
  when_disconnected_do
    (self (run_session model_map plugin recursion_limit s
             (as_disconnected ++ [WhenDisconnected (Some f) every_time])))
    = Some (f, every_time).
Proof.
  simpl. split_and!; [done | done | |]; by rewrite run_session_snoc.
Qed.

(** C8.  A one-shot hook ([every_time] false) that returns is called once
    over two consecutive [connect] events, the slot being empty after the
    first; an every-time hook is called once per [connect].  The same holds
    of the disconnect hook over [disconnect] events. *)
Theorem hooks_one_shot_or_every_time s f :
  (when_connected_do (self s) = Some (f, false) →
   (∃ v, (body f VNone (store s)).1 = Returns v) →
   let s1 := (connect s).2 in
   let s2 := (connect s1).2 in
   when_connected_do (self s1) = None ∧
   calls_of (__name__ f) (trace s1) = S (calls_of (__name__ f) (trace s)) ∧
   calls_of (__name__ f) (trace s2) = S (calls_of (__name__ f) (trace s))) ∧
  (when_connected_do (self s) = Some (f, true) →
   let s1 := (connect s).2 in
   let s2 := (connect s1).2 in
   calls_of (__name__ f) (trace s1) = S (calls_of (__name__ f) (trace s)) ∧
   calls_of (__name__ f) (trace s2) = S (S (calls_of (__name__ f) (trace s)))) ∧
  (when_disconnected_do (self s) = Some (f, false) →
   (∃ v, (body f VNone (store s)).1 = Returns v) →
   let s1 := (disconnect s).2 in
   let s2 := (disconnect s1).2 in
   when_disconnected_do (self s1) = None ∧
   calls_of (__name__ f) (trace s1) = S (calls_of (__name__ f) (trace s)) ∧
   calls_of (__name__ f) (trace s2) = S (calls_of (__name__ f) (trace s))) ∧
  (when_disconnected_do (self s) = Some (f, true) →
   let s1 := (disconnect s).2 in
   let s2 := (disconnect s1).2 in
   calls_of (__name__ f) (trace s1) = S (calls_of (__name__ f) (trace s)) ∧
   calls_of (__name__ f) (trace s2) = S (S (calls_of (__name__ f) (trace s)))).
Proof.
  split_and!.
  - intros Hslot [v Hv]. cbv zeta.
    destruct (connect_hook s f false Hslot) as [Hcalls Hslot1].
    rewrite Hv in Hslot1.
    destruct (connect_no_hook (__name__ f) _ Hslot1) as [Hcalls2 _].
    split_and!; [done | done |]. by rewrite Hcalls2.
  - intros Hslot. cbv zeta.
    destruct (connect_hook s f true Hslot) as [Hcalls Hslot1].
    assert (when_connected_do (self (connect s).2) = Some (f, true)) as Hslot1'
      by (rewrite Hslot1; by destruct (body f VNone (store s)).1).
    destruct (connect_hook _ f true Hslot1') as [Hcalls2 _].
    split; [done|]. by rewrite Hcalls2, Hcalls.
  - intros Hslot [v Hv]. cbv zeta.
    destruct (disconnect_hook s f false Hslot) as [Hcalls Hslot1].
    rewrite Hv in Hslot1.
    destruct (disconnect_no_hook (__name__ f) _ Hslot1) as [Hcalls2 _].
    split_and!; [done | done |]. by rewrite Hcalls2.
  - intros Hslot. cbv zeta.
    destruct (disconnect_hook s f true Hslot) as [Hcalls Hslot1].
    assert (when_disconnected_do (self (disconnect s).2) = Some (f, true)) as Hslot1'
      by (rewrite Hslot1; by destruct (body f VNone (store s)).1).
    destruct (disconnect_hook _ f true Hslot1') as [Hcalls2 _].
    split; [done|]. by rewrite Hcalls2, Hcalls.
Qed.

(** C5, as amended.  In any session on a freshly constructed bot, the units
    handed to the pool carry the completion callback according to their
    kind: receiver invocations and the scheduler loop carry it, the
    distributor units handed over by the message handlers do not.  When a
    unit ends in a failure, the callback, where there is one, logs it;
    without a callback nothing happens. *)
Theorem callbacks_follow_kind qq_arg use_plugins plugin_dir gb fb h acts :
  let b0 := __init__ config webhook plugin qq_arg use_plugins plugin_dir gb fb in
  Forall (λ sub, done_callback sub = callback_by_kind sub)
    (submitted
       (executor (self (run_session model_map plugin recursion_limit (fresh b0 h) acts)))) ∧
  ∀ sub e s,
    finish sub (Raises e) s =
      (Returns (),
       if done_callback sub
       then {| self := self s; store := store s; trace := trace s ++ [LoggedException e] |}
       else s).
Proof.
  split.
  - apply run_session_callbacks. constructor.
  - intros sub e s. unfold finish. by destruct (done_callback sub).
Qed.

(** C6, as amended.  A failure raised by the constructor of the message or
    by the middleware is not caught by the message handler: it leaves the
    handler, which hands nothing to the pool and writes no record of the
    failure; the bot is as it was before the message. *)
Theorem dispatch_failures_propagate name msg s :
  (∀ e h1,
     body (model_map name) msg (store s) = (Raises e, h1) →
     handler_of model_map name msg s =
       (Raises e, {| self := self s; store := h1; trace := trace s |})) ∧
  (∀ context h1 data mw e h2,
     body (model_map name) msg (store s) = (Returns context, h1) →
     getattr h1 context "data" = Some data →
     blacklist_verdict name (self s) h1 context = Returns false →
     middleware_of name (self s) = Some mw →
     body mw context h1 = (Raises e, h2) →
     handler_of model_map name msg s =
       (Raises e,
        {| self := self s; store := h2;
           trace := trace s ++ [info_of h1 context data; Called (__name__ mw) context] |})).
Proof.
  split.
  - intros e h1 Hc. by rewrite handler_of_eq, Hc.
  - intros context h1 data mw e h2 Hc Hd Hb Hm Hmw.
    rewrite handler_of_eq, Hc, Hd. simpl. rewrite Hb, Hm, Hmw.
    by rewrite <- app_assoc.
Qed.

(** C2.  A group message whose [FromGroupId] is in the group blacklist, and
    a friend message whose [FromUin] is in the friend blacklist, is dropped:
    the handler returns after the log record, the middleware is not called
    and nothing is handed to the pool.  The event handler does not look at
    the blacklists: it does the same whatever they hold. *)
Theorem blacklisted_messages_dropped msg s :
  (∀ context h1 data z,
     body (model_map OnGroupMsgs) msg (store s) = (Returns context, h1) →
     getattr h1 context "data" = Some data →
     getattr h1 context "FromGroupId" = Some (VInt z) →
     z ∈ group_blacklist (self s) →
     group_msg_handler model_map msg s =
       (Returns (),
        {| self := self s; store := h1; trace := trace s ++ [info_of h1 context data] |})) ∧
  (∀ context h1 data z,
     body (model_map OnFriendMsgs) msg (store s) = (Returns context, h1) →
     getattr h1 context "data" = Some data →
     getattr h1 context "FromUin" = Some (VInt z) →
     z ∈ friend_blacklist (self s) →
     friend_msg_handler model_map msg s =
       (Returns (),
        {| self := self s; store := h1; trace := trace s ++ [info_of h1 context data] |})) ∧
  (∀ gb fb,
     event_msg_handler model_map msg (with_self (set_blacklists gb fb) s) =
       ((event_msg_handler model_map msg s).1,
        with_self (set_blacklists gb fb) (event_msg_handler model_map msg s).2)).
Proof.
  split_and!.
  - intros context h1 data z Hc Hd Hid Hz.
    change (group_msg_handler model_map msg s) with (handler_of model_map OnGroupMsgs msg s).
    rewrite handler_of_eq, Hc, Hd. simpl. unfold attr_in. rewrite Hid. simpl.
    by rewrite bool_decide_eq_true_2.
  - intros context h1 data z Hc Hd Hid Hz.
    change (friend_msg_handler model_map msg s) with (handler_of model_map OnFriendMsgs msg s).
    rewrite handler_of_eq, Hc, Hd. simpl. unfold attr_in. rewrite Hid. simpl.
    by rewrite bool_decide_eq_true_2.
  - intros gb fb.
    change (event_msg_handler model_map msg) with (handler_of model_map OnEvents msg).
    rewrite !handler_of_eq. simpl.
    destruct (body (model_map OnEvents) msg (store s)) as [[context|e] h1]; [|done].
    destruct (getattr h1 context "data") as [data|]; [|done]. simpl.
    destruct (event_context_middleware (self s)) as [mw|]; [|done].
    destruct (body mw context h1) as [[new_context|e] h2]; [|done].
    by destruct (isinstance_type_of h2 new_context context).
Qed.

Lemma distributor_of_eq name context s :
  distributor_of recursion_limit name context s =
    distribute_to recursion_limit (merged_receivers name (self s)) context s.
Proof. by destruct name. Qed.

(** C3.  With a middleware registered and a message that passes the
    blacklist: the handler calls the middleware once; if what it returns is
    an instance of the type of the message, the handler hands to the pool
    the distribution of that returned value (not of the original); if it is
    anything else, [None] included, nothing is handed to the pool.  The
    distribution of the returned value gives every receiver of the category
    a copy that shows what the returned value shows when [copy.deepcopy] can
    copy that value; when the value is nested too deep for it, the
    distribution raises [RecursionError] at the first receiver and no
    receiver gets anything. *)
Theorem middleware_decides_fan_out name msg s context h1 data mw new_context h2 :
  body (model_map name) msg (store s) = (Returns context, h1) →
  getattr h1 context "data" = Some data →
  blacklist_verdict name (self s) h1 context = Returns false →
  middleware_of name (self s) = Some mw →
  body mw context h1 = (Returns new_context, h2) →
  handler_of model_map name msg s =
    (Returns (),
     {| self :=
          if isinstance_type_of h2 new_context context
          then with_submitted [dispatch name new_context] (self s)
          else self s;
        store := h2;
        trace := trace s ++ [info_of h1 context data; Called (__name__ mw) context] |}) ∧
  (∀ s' n0,
     closed_below n0 (store s') → val_in n0 new_context →
     is_Some (deepcopy recursion_limit (store s') new_context) →
     ∃ cs h',
       distributor_of recursion_limit name new_context s' =
         (Returns (),
          {| self := with_submitted (invocations (merged_receivers name (self s')) cs) (self s');
             store := h'; trace := trace s' |}) ∧
       length cs = length (merged_receivers name (self s')) ∧
       Forall (λ c, ∀ d, view_of d h' c = view_of d (store s') new_context) cs) ∧
  (∀ s',
     deepcopy recursion_limit (store s') new_context = None →
     merged_receivers name (self s') ≠ [] →
     distributor_of recursion_limit name new_context s' =
       (Raises (Exn "RecursionError" "maximum recursion depth exceeded"), s')) ∧
  (∀ h c, isinstance_type_of h VNone c = false).
Proof.
  intros Hc Hd Hb Hm Hmw. split_and!.
  - rewrite handler_of_eq, Hc, Hd. simpl. rewrite Hb, Hm, Hmw.
    rewrite <- app_assoc. simpl.
    by destruct (isinstance_type_of h2 new_context context).
  - intros s' n0 Hcl Hv Hfit. rewrite distributor_of_eq.
    destruct (distribute_to_spec recursion_limit (merged_receivers name (self s')) s'
                new_context n0 Hcl Hv Hfit)
      as (cs & h' & Hrun & Hlen & _ & Hviews & _).
    by exists cs, h'.
  - intros s' Hdeep Hrs. rewrite distributor_of_eq.
    by apply distribute_to_too_deep.
  - intros h c. unfold isinstance_type_of. by destruct (type_of h c).
Qed.

(** C9.  The distributor of a category, run on a context whose objects do
    not dangle, hands invocations to the pool in one of two ways.  Either it
    returns having handed over one invocation per receiver, each on its own
    copy of the context: the store only grows; every copy shows what the
    context shows; whatever is reachable from a copy was allocated by the
    distribution and is reachable neither from the context nor from any
    other copy; and any sequence of writes to objects reachable from a copy
    changes neither what the context shows nor what any other copy shows.
    Or the context is nested too deep for [copy.deepcopy], and the
    distributor raises [RecursionError] at its first receiver, having handed
    over nothing.  No invocation is ever handed over on the context itself
    or on the copy of another. *)
Theorem fan_out_copies_isolated name s context n0 :
  closed_below n0 (store s) → val_in n0 context →
  (∃ cs h',
    distributor_of recursion_limit name context s =
      (Returns (),
       {| self := with_submitted (invocations (merged_receivers name (self s)) cs) (self s);
          store := h'; trace := trace s |}) ∧
    length cs = length (merged_receivers name (self s)) ∧
    extends (store s) h' ∧
    ∀ i ci, cs !! i = Some ci →
      (∀ d, view_of d h' ci = view_of d (store s) context) ∧
      (∀ l, reachable h' ci l →
        length (store s) ≤ l ∧
        ¬ reachable h' context l ∧
        ∀ j cj, j ≠ i → cs !! j = Some cj → ¬ reachable h' cj l) ∧
      ∀ ws d,
        Forall (λ w : loc * pyobj, reachable h' ci w.1) ws →
        view_of d (apply_writes h' ws) context = view_of d h' context ∧
        ∀ j cj, j ≠ i → cs !! j = Some cj →
          view_of d (apply_writes h' ws) cj = view_of d h' cj) ∨
  (deepcopy recursion_limit (store s) context = None ∧
   merged_receivers name (self s) ≠ [] ∧
   distributor_of recursion_limit name context s =
     (Raises (Exn "RecursionError" "maximum recursion depth exceeded"), s)).
Proof.
  intros Hcl Hv. rewrite distributor_of_eq.
  assert (is_Some (deepcopy recursion_limit (store s) context) ∨
          merged_receivers name (self s) = [] ∨
          (deepcopy recursion_limit (store s) context = None ∧
           merged_receivers name (self s) ≠ [])) as Hcases.
  { destruct (deepcopy recursion_limit (store s) context) as [r|]; [left; by eexists|].
    right. destruct (merged_receivers name (self s)); [by left | by right]. }
  destruct Hcases as [Hfit | [Hnone | [Hdeep Hrs]]];
    [| | right; split_and!; [done | done | by apply distribute_to_too_deep]].
  2: { left. exists [], (store s). rewrite Hnone. simpl. rewrite with_submitted_nil.
       split_and!; [by destruct s | done | done |]. intros i ci Hi. done. }
  left.
  destruct (distribute_to_spec recursion_limit (merged_receivers name (self s)) s
              context n0 Hcl Hv Hfit)
    as (cs & h' & Hrun & Hlen & Hext & Hviews & Hcopies).
  exists cs, h'. split_and!; [done | done | done |].
  intros i ci Hi.
  destruct (copies_from_lookup _ _ _ _ _ Hcopies Hi)
    as (a & hi & P & Ha & Hab & HPc & HP & _).
  pose proof (closed_below_confined _ _ _ (closed_below_extends _ _ _ Hcl Hext) Hv) as HQc.
  assert (∀ x, P x → x < n0 → False) as Hdisj0.
  { intros x Hx%HP Hx0. destruct Hcl. lia. }
  assert (∀ j cj, j ≠ i → cs !! j = Some cj →
            ∃ P' Q' : loc → Prop, confined P' h' ci ∧ confined Q' h' cj ∧
              ∀ x, P' x → Q' x → False) as Hothers.
  { intros j cj Hji Hj.
    destruct (decide (i < j)) as [Hlt|Hge].
    - destruct (copies_from_apart _ _ _ _ _ _ _ Hcopies Hlt Hi Hj)
        as (P' & Q' & HP' & HQ' & _ & _ & Hdisj).
      by exists P', Q'.
    - assert (j < i) as Hlt by lia.
      destruct (copies_from_apart _ _ _ _ _ _ _ Hcopies Hlt Hj Hi)
        as (P' & Q' & HP' & HQ' & _ & _ & Hdisj).
      exists Q', P'. split_and!; [done | done |]. intros x Hx Hx'. by eapply Hdisj. }
  split_and!.
  - eapply Forall_lookup_1 in Hviews; [|exact Hi]. done.
  - intros l Hl. pose proof (confined_reachable _ _ _ _ HPc Hl) as HPl.
    split_and!.
    + apply HP in HPl. lia.
    + by eapply (confined_disjoint_reach P (λ x, x < n0)).
    + intros j cj Hji Hj. destruct (Hothers j cj Hji Hj) as (P' & Q' & HP' & HQ' & Hdisj).
      by eapply (confined_disjoint_reach P' Q').
  - intros ws d Hws. split.
    + by eapply (confined_disjoint_write P (λ x, x < n0)).
    + intros j cj Hji Hj. destruct (Hothers j cj Hji Hj) as (P' & Q' & HP' & HQ' & Hdisj).
      by eapply (confined_disjoint_write P' Q').
Qed.

End Claims.

(** * The claims on the sample deployment *)

Lemma check_closed_correct n h : check_closed n h = true → closed_below n h.
Proof.
  unfold check_closed. intros [Hn Hall]%andb_true_iff.
  apply bool_decide_eq_true in Hn. split; [done|].
  intros l o Hl Ho r Hr.
  apply Is_true_true_2, forallb_True in Hall.
  rewrite <- (lookup_take_lt h n l Hl) in Ho.
  eapply Forall_lookup_1 in Hall; [|exact Ho]. simpl in Hall.
  apply forallb_True in Hall. rewrite Forall_forall in Hall.
  specialize (Hall r Hr). by apply bool_decide_unpack in Hall.
Qed.

(** C1 fails as stated: on the sample bot, built with no receiver, the pool
    has [min(50, 2 * 3) = 6] workers; after one group receiver is added by
    hand the rule gives [2 * 4 = 8], and the pool still has 6. *)
Lemma pool_not_resized_on_registration :
  let s := sample_run [AddReceiver OnGroupMsgs (noop "on_group")] in
  max_workers (executor (self s)) = 6 ∧ sizing_rule (self s) = 8 ∧
  max_workers (executor (self s)) ≠ sizing_rule (self s).
Proof. vm_compute. split_and!; [reflexivity | reflexivity | discriminate]. Qed.

(** C5 fails as stated: after a friend message from friend 7 the pool holds
    the distributor unit, without callback; when that unit ends in a failure
    nothing is logged. *)
Lemma distributor_failure_unreported :
  ¬ every_unit_reports (sample_run [Inbound OnFriendMsgs (VRef 1)]).
Proof.
  intros Hall.
  specialize (Hall (dispatch OnFriendMsgs (VRef 2)) (Exn "RuntimeError" "boom")).
  vm_compute in Hall.
  assert (LoggedException (Exn "RuntimeError" "boom")
            ∈ [Logged INFO "{} ->  {}" [VStr "FriendMsg"; VRef 1]]) as Hin
    by (apply Hall; apply list_elem_of_singleton; reflexivity).
  apply list_elem_of_singleton in Hin. discriminate.
Qed.

(** C6 fails as stated: a payload the constructor rejects makes the friend
    handler raise; the failure is neither caught nor logged by it. *)
Lemma constructor_failure_not_caught :
  handler_of sample_model_map OnFriendMsgs (VInt 5) sample_state
    = (Raises (Exn "TypeError" "FriendMsg"), sample_state) ∧
  ¬ caught_and_logged sample_model_map OnFriendMsgs (VInt 5) sample_state
      (Exn "TypeError" "FriendMsg").
Proof.
  split; [reflexivity|]. intros (s' & Hrun & _).
  change (handler_of sample_model_map OnFriendMsgs (VInt 5) sample_state)
    with (Raises (A:=()) (Exn "TypeError" "FriendMsg"), sample_state) in Hrun.
  discriminate.
Qed.

(** The sample limit at work: a payload nested 450 lists deep is copied, one
    nested 600 deep is not. *)
Lemma sample_limit_reached :
  is_Some (deepcopy sample_limit (deep_store 450) (VRef 0)) ∧
  deepcopy sample_limit (deep_store 600) (VRef 0) = None.
Proof. split; [vm_compute; eexists; reflexivity | vm_compute; reflexivity]. Qed.

(** C3 fails as stated: a payload of group 2002 whose content is nested 601
    lists deep passes the blacklist, and the middleware hands the message
    back, a value of the message's type; the handler hands its distribution
    to the pool; the distribution raises [RecursionError] at the first of
    the two receivers, and no receiver gets the value. *)
Lemma deep_value_reaches_no_receiver :
  let s := deep_state in
  let h1 := deep_store 600 ++ [deep_message] in
  let context := VRef 602 in
  let s' := (handler_of sample_model_map OnGroupMsgs (VRef 0) s).2 in
  body (sample_model_map OnGroupMsgs) (VRef 0) (store s) = (Returns context, h1) ∧
  blacklist_verdict OnGroupMsgs (self s) h1 context = Returns false ∧
  middleware_of OnGroupMsgs (self s) = Some (passing "mw") ∧
  body (passing "mw") context h1 = (Returns context, h1) ∧
  isinstance_type_of h1 context context = true ∧
  submitted (executor (self s')) = [dispatch OnGroupMsgs context] ∧
  merged_receivers OnGroupMsgs (self s') = [noop "first"; noop "second"] ∧
  distributor_of sample_limit OnGroupMsgs context s' =
    (Raises (Exn "RecursionError" "maximum recursion depth exceeded"), s') ∧
  ¬ every_receiver_served sample_limit OnGroupMsgs context s'.
Proof.
  intros s h1 context s'.
  assert (distributor_of sample_limit OnGroupMsgs context s' =
            (Raises (Exn "RecursionError" "maximum recursion depth exceeded"), s'))
    as Hraise by (vm_compute; reflexivity).
  split_and!; try (vm_compute; reflexivity).
  intros (cs & h' & Hrun & _). rewrite Hraise in Hrun. discriminate Hrun.
Qed.

(** C8 fails as stated: a one-shot connect hook that raises keeps its slot
    after its first execution and is called again at the next connect, twice
    over two consecutive connects. *)
Lemma one_shot_hook_called_twice :
  let f := failing "greet" in
  let s := sample_run [WhenConnected (Some f) false] in
  when_connected_do (self s) = Some (f, false) ∧
  (connect s).1 = Raises (Exn "ValueError" "greet") ∧
  when_connected_do (self (connect s).2) = Some (f, false) ∧
  calls_of "greet" (trace s) = 0 ∧
  calls_of "greet" (trace (connect (connect s).2).2) = 2 ∧
  ¬ one_shot_runs_once s f.
Proof.
  intros f s.
  assert (when_connected_do (self (connect s).2) = Some (f, false)) as Hslot
    by (vm_compute; reflexivity).
  split_and!; try (vm_compute; reflexivity).
  intros Hclaim. destruct (Hclaim eq_refl) as [Hcleared _].
  rewrite Hslot in Hcleared. discriminate Hcleared.
Qed.

(** C2 on the sample bot: a payload of group 1001 and of friend 42. *)
Lemma blacklisted_messages_dropped_witness :
  (body (sample_model_map OnGroupMsgs) (VRef 0) (store sample_state)
     = (Returns (VRef 2),
        sample_store ++ [OInst ["GroupMsg"] [("message", VRef 0); ("data", VRef 0);
                                             ("FromGroupId", VInt 1001)]]) ∧
   (1001%Z ∈ group_blacklist (self sample_state)) ∧
   group_msg_handler sample_model_map (VRef 0) sample_state
     = (Returns (),
        {| self := sample_bot;
           store := sample_store ++ [OInst ["GroupMsg"] [("message", VRef 0); ("data", VRef 0);
                                                ("FromGroupId", VInt 1001)]];
           trace := [Logged INFO "{} ->  {}" [VStr "GroupMsg"; VRef 0]] |})) ∧
  (body (sample_model_map OnFriendMsgs) (VRef 0) (store sample_state)
     = (Returns (VRef 2),
        sample_store ++ [OInst ["FriendMsg"] [("message", VRef 0); ("data", VRef 0);
                                              ("FromUin", VInt 42)]]) ∧
   (42%Z ∈ friend_blacklist (self sample_state)) ∧
   friend_msg_handler sample_model_map (VRef 0) sample_state
     = (Returns (),
        {| self := sample_bot;
           store := sample_store ++ [OInst ["FriendMsg"] [("message", VRef 0); ("data", VRef 0);
                                                 ("FromUin", VInt 42)]];
           trace := [Logged INFO "{} ->  {}" [VStr "FriendMsg"; VRef 0]] |})).
Proof.
  destruct (blacklisted_messages_dropped sample_model_map (VRef 0) sample_state)
    as (Hgroup & Hfriend & _).
  assert (1001%Z ∈ group_blacklist (self sample_state)) as Hg
    by (apply (bool_decide_unpack _); vm_compute; exact I).
  assert (42%Z ∈ friend_blacklist (self sample_state)) as Hf
    by (apply (bool_decide_unpack _); vm_compute; exact I).
  split; (split; [reflexivity|]); (split; [assumption|]).
  - exact (Hgroup _ _ (VRef 0) 1001%Z eq_refl eq_refl eq_refl Hg).
  - exact (Hfriend _ _ (VRef 0) 42%Z eq_refl eq_refl eq_refl Hf).
Defined.

(** C4 on the sample bot: two registrations for friend messages. *)
Lemma second_middleware_rejected_witness :
  middleware_of OnFriendMsgs (self sample_state) = None ∧
  let r1 := register_context_middleware OnFriendMsgs (passing "first") sample_state in
  let r2 := register_context_middleware OnFriendMsgs (passing "second") r1.2 in
  r1.1 = Returns () ∧ middleware_of OnFriendMsgs (self r1.2) = Some (passing "first") ∧
  (∃ msg, r2.1 = Raises (Exn "Exception" msg)) ∧ r2.2 = r1.2.
Proof.
  split; [reflexivity|].
  destruct (second_middleware_rejected OnFriendMsgs (passing "first") (passing "second")
              sample_state eq_refl) as (H1 & H2 & H3 & H4 & _).
  exact (conj H1 (conj H2 (conj H3 H4))).
Defined.

Lemma val_in_ref n l : l < n → val_in n (VRef l).
Proof. intros Hl r Hr%list_elem_of_singleton. by subst. Qed.

(** C3 on the sample bot: a payload of group 2002 through a middleware that
    hands the message back, and its distribution to the two receivers. *)
Lemma middleware_decides_fan_out_witness :
  let s := sample_group_state (passing "mw") in
  let h1 := sample_store ++ [sample_message] in
  body (sample_model_map OnGroupMsgs) (VRef 1) (store s) = (Returns (VRef 2), h1) ∧
  getattr h1 (VRef 2) "data" = Some (VRef 1) ∧
  blacklist_verdict OnGroupMsgs (self s) h1 (VRef 2) = Returns false ∧
  middleware_of OnGroupMsgs (self s) = Some (passing "mw") ∧
  body (passing "mw") (VRef 2) h1 = (Returns (VRef 2), h1) ∧
  handler_of sample_model_map OnGroupMsgs (VRef 1) s =
    (Returns (),
     {| self := with_submitted [dispatch OnGroupMsgs (VRef 2)] (self s);
        store := h1;
        trace := trace s ++ [info_of h1 (VRef 2) (VRef 1); Called "mw" (VRef 2)] |}) ∧
  let s' := (handler_of sample_model_map OnGroupMsgs (VRef 1) s).2 in
  closed_below 3 (store s') ∧ val_in 3 (VRef 2) ∧
  is_Some (deepcopy sample_limit (store s') (VRef 2)) ∧
  ∃ cs h',
    distributor_of sample_limit OnGroupMsgs (VRef 2) s' =
      (Returns (),
       {| self := with_submitted (invocations (merged_receivers OnGroupMsgs (self s')) cs)
                    (self s');
          store := h'; trace := trace s' |}) ∧
    length cs = 2.
Proof.
  intros s h1.
  assert (blacklist_verdict OnGroupMsgs (self s) h1 (VRef 2) = Returns false) as Hb
    by (vm_compute; reflexivity).
  destruct (middleware_decides_fan_out sample_model_map sample_limit OnGroupMsgs (VRef 1) s
              (VRef 2) h1 (VRef 1) (passing "mw") (VRef 2) h1
              eq_refl eq_refl Hb eq_refl eq_refl) as (Hrun & Hserved & _).
  split_and!; [reflexivity | reflexivity | exact Hb | reflexivity | reflexivity
              | exact Hrun |].
  intros s'.
  assert (closed_below 3 (store s')) as Hcl
    by (apply check_closed_correct; vm_compute; reflexivity).
  assert (val_in 3 (VRef 2)) as Hv by (apply val_in_ref; lia).
  assert (is_Some (deepcopy sample_limit (store s') (VRef 2))) as Hfit
    by (vm_compute; eexists; reflexivity).
  split_and!; [exact Hcl | exact Hv | exact Hfit |].
  destruct (Hserved s' 3 Hcl Hv Hfit) as (cs & h' & Hdist & Hlen & _).
  exists cs, h'. exact (conj Hdist Hlen).
Defined.

(** C6 on the sample bot: a payload the constructor rejects, and a payload
    of group 2002 through a middleware that raises. *)
Lemma dispatch_failures_propagate_witness :
  (body (sample_model_map OnFriendMsgs) (VInt 5) (store sample_state)
     = (Raises (Exn "TypeError" "FriendMsg"), sample_store) ∧
   handler_of sample_model_map OnFriendMsgs (VInt 5) sample_state
     = (Raises (Exn "TypeError" "FriendMsg"),
        {| self := sample_bot; store := sample_store; trace := [] |})) ∧
  let s := sample_group_state (failing "mw") in
  let h1 := sample_store ++ [sample_message] in
  body (sample_model_map OnGroupMsgs) (VRef 1) (store s) = (Returns (VRef 2), h1) ∧
  getattr h1 (VRef 2) "data" = Some (VRef 1) ∧
  blacklist_verdict OnGroupMsgs (self s) h1 (VRef 2) = Returns false ∧
  middleware_of OnGroupMsgs (self s) = Some (failing "mw") ∧
  body (failing "mw") (VRef 2) h1 = (Raises (Exn "ValueError" "mw"), h1) ∧
  handler_of sample_model_map OnGroupMsgs (VRef 1) s =
    (Raises (Exn "ValueError" "mw"),
     {| self := self s; store := h1;
        trace := trace s ++ [info_of h1 (VRef 2) (VRef 1); Called "mw" (VRef 2)] |}).
Proof.
  split.
  - split; [reflexivity|].
    exact (proj1 (dispatch_failures_propagate sample_model_map OnFriendMsgs (VInt 5)
                    sample_state) _ _ eq_refl).
  - intros s h1.
    assert (blacklist_verdict OnGroupMsgs (self s) h1 (VRef 2) = Returns false) as Hb
      by (vm_compute; reflexivity).
    split_and!; [reflexivity | reflexivity | exact Hb | reflexivity | reflexivity |].
    exact (proj2 (dispatch_failures_propagate sample_model_map OnGroupMsgs (VRef 1) s)
             (VRef 2) h1 (VRef 1) (failing "mw") _ h1 eq_refl eq_refl Hb eq_refl eq_refl).
Defined.

(** C8 on the sample bot: a hook registered once and for every time, for
    connect and for disconnect. *)
Lemma hooks_one_shot_or_every_time_witness :
  let hello := noop "hello" in
  let once := sample_run [WhenConnected (Some hello) false] in
  let always := sample_run [WhenConnected (Some hello) true] in
  let once' := sample_run [WhenDisconnected (Some hello) false] in
  let always' := sample_run [WhenDisconnected (Some hello) true] in
  (when_connected_do (self once) = Some (hello, false) ∧
   (∃ v, (body hello VNone (store once)).1 = Returns v) ∧
   when_connected_do (self (connect once).2) = None ∧
   calls_of "hello" (trace (connect (connect once).2).2) = 1) ∧
  (when_connected_do (self always) = Some (hello, true) ∧
   calls_of "hello" (trace (connect (connect always).2).2) = 2) ∧
  (when_disconnected_do (self once') = Some (hello, false) ∧
   (∃ v, (body hello VNone (store once')).1 = Returns v) ∧
   when_disconnected_do (self (disconnect once').2) = None ∧
   calls_of "hello" (trace (disconnect (disconnect once').2).2) = 1) ∧
  (when_disconnected_do (self always') = Some (hello, true) ∧
   calls_of "hello" (trace (disconnect (disconnect always').2).2) = 2).
Proof.
  intros hello once always once' always'.
  assert (∀ s, ∃ v, (body hello VNone (store s)).1 = Returns v) as Hret
    by (intros s; exists VNone; reflexivity).
  destruct (hooks_one_shot_or_every_time once hello) as (Hc1 & _).
  destruct (hooks_one_shot_or_every_time always hello) as (_ & Hc2 & _).
  destruct (hooks_one_shot_or_every_time once' hello) as (_ & _ & Hd1 & _).
  destruct (hooks_one_shot_or_every_time always' hello) as (_ & _ & _ & Hd2).
  specialize (Hc1 eq_refl (Hret once)). specialize (Hc2 eq_refl).
  specialize (Hd1 eq_refl (Hret once')). specialize (Hd2 eq_refl).
  split; [|split; [|split]].
  - split; [reflexivity|]. split; [apply Hret|].
    exact (conj (proj1 Hc1) (proj2 (proj2 Hc1))).
  - split; [reflexivity|]. exact (proj2 Hc2).
  - split; [reflexivity|]. split; [apply Hret|].
    exact (conj (proj1 Hd1) (proj2 (proj2 Hd1))).
  - split; [reflexivity|]. exact (proj2 Hd2).
Defined.

(** C9 on the sample bot: the message of group 2002 distributed to two
    receivers. *)
Lemma fan_out_copies_isolated_witness :
  closed_below 3 (store sample_dispatched) ∧ val_in 3 (VRef 2) ∧
  ∃ cs h',
    distributor_of sample_limit OnGroupMsgs (VRef 2) sample_dispatched =
      (Returns (),
       {| self := with_submitted
                    (invocations (merged_receivers OnGroupMsgs (self sample_dispatched)) cs)
                    (self sample_dispatched);
          store := h'; trace := trace sample_dispatched |}) ∧
    length cs = 2 ∧
    ∀ i ci, cs !! i = Some ci →
      ∀ d, view_of d h' ci = view_of d (store sample_dispatched) (VRef 2).
Proof.
  assert (closed_below 3 (store sample_dispatched)) as Hcl
    by (apply check_closed_correct; vm_compute; reflexivity).
  assert (val_in 3 (VRef 2)) as Hv by (apply val_in_ref; lia).
  split_and!; [exact Hcl | exact Hv |].
  destruct (fan_out_copies_isolated sample_limit OnGroupMsgs sample_dispatched (VRef 2) 3
              Hcl Hv)
    as [(cs & h' & Hrun & Hlen & _ & Hall) | (Hdeep & _)].
  - exists cs, h'. split_and!; [exact Hrun | exact Hlen |].
    intros i ci Hi. exact (proj1 (Hall i ci Hi)).
  - vm_compute in Hdeep. discriminate Hdeep.
Defined.

(** * Further properties of the code *)

Section Frame.

Variable model_map : event_name → Callable.
Variable plugin : PluginAPI.
Variable recursion_limit : nat.

Implicit Types (s : state) (b : IOTBOT) (a : action).

(** The fan-out loop on any store: the bot changes in its pool only, the
    trace not at all. *)
Lemma distribute_to_self rs :
  ∀ s context,
    ∃ subs, self (distribute_to recursion_limit rs context s).2 = with_submitted subs (self s) ∧
            trace (distribute_to recursion_limit rs context s).2 = trace s.
Proof.
  induction rs as [|r rs IH]; intros s context.
  - exists []. by rewrite with_submitted_nil.
  - simpl. unfold_M. unfold copy_deepcopy.
    destruct (deepcopy recursion_limit (store s) context) as [[c h1]|]; simpl;
      [|exists []; by rewrite with_submitted_nil].
    match goal with |- context [distribute_to recursion_limit rs context ?s1] =>
      destruct (IH s1 context) as (subs & Hself & Htrace) end.
    simpl in *. exists ({| fn := Receive r c; done_callback := true |} :: subs).
    split; [|done]. rewrite Hself.
    fold (with_submitted [{| fn := Receive r c; done_callback := true |}] (self s)).
    by rewrite with_submitted_app.
Qed.

Lemma framed_same a b b' :
  qq b' = qq b → group_blacklist b' = group_blacklist b →
  friend_blacklist b' = friend_blacklist b → _exit b' = _exit b →
  (∀ name, hand_receivers name b' = hand_receivers name b) →
  (∀ name, middleware_of name b' = middleware_of name b) →
  (∀ name, added_receivers a name = []) →
  (∀ name, offered_middleware a name = None) →
  framed a b b'.
Proof.
  intros ? ? ? ? Hh Hm Ha Ho. split_and!; try done.
  - intros name. by rewrite Hh, Ha, app_nil_r.
  - intros name. rewrite Hm, Ho. by destruct (middleware_of name b).
Qed.

(** One step of a session, field by field. *)
Lemma step_framed s a : framed a (self s) (self (step model_map plugin recursion_limit s a)).
Proof.
  unfold step. destruct a; simpl.
  - rewrite connect_eq. unfold connected, hook_called.
    destruct (when_connected_do (self s)) as [[f []]|];
      try destruct (body f VNone (store s)) as [[v|e] h]; simpl;
      destruct (starts_scheduler (self s)); simpl;
      apply framed_same; try done; by intros [].
  - rewrite disconnect_eq. unfold hook_called. simpl.
    destruct (when_disconnected_do (self s)) as [[f []]|];
      try destruct (body f VNone (store s)) as [[v|e] h]; simpl;
      apply framed_same; try done; by intros [].
  - rewrite handler_of_eq.
    destruct (body (model_map name) msg (store s)) as [[context|e] h1];
      [|apply framed_same; try done; by intros []].
    destruct (getattr h1 context "data") as [data|];
      [|apply framed_same; try done; by intros []].
    simpl.
    destruct (blacklist_verdict name (self s) h1 context) as [[]|];
      try (apply framed_same; try done; by intros []).
    destruct (middleware_of name (self s)) as [mw|];
      [|apply framed_same; try done; by intros []].
    destruct (body mw context h1) as [[new_context|e] h2];
      [|apply framed_same; try done; by intros []].
    destruct (isinstance_type_of h2 new_context context);
      apply framed_same; try done; by intros [].
  - rewrite distributor_of_eq.
    destruct (distribute_to_self (merged_receivers name (self s)) s context)
      as (subs & -> & _).
    apply framed_same; try done; by intros [].
  - unfold finish, thread_pool_callback, logger_catch. unfold_M.
    destruct (done_callback sub), worker; simpl; apply framed_same; done.
  - destruct func; unfold_M; simpl; apply framed_same; try done; by intros [].
  - destruct func; unfold_M; simpl; apply framed_same; try done; by intros [].
  - destruct name; unfold_M; simpl;
      (split_and!; try done; intros n; destruct n; simpl; rewrite ?app_nil_r; try done;
       match goal with |- context [match ?mw with Some _ => _ | None => _ end] =>
         by destruct mw end).
  - destruct name; simpl;
      unfold register_group_context_middleware, register_friend_context_middleware,
        register_event_context_middleware; unfold_M; simpl;
      (match goal with |- context [match ?mw with Some _ => _ | None => _ end] =>
         destruct mw eqn:Hmw end); simpl;
      (split_and!; try done; intros n; destruct n; simpl; rewrite ?app_nil_r, ?Hmw;
       try done;
       match goal with |- context [match ?mw with Some _ => _ | None => _ end] =>
         by destruct mw end).
  - apply framed_same; try done; by intros [].
  - apply framed_same; try done; by intros [].
  - apply framed_same; try done; by intros [].
  - apply framed_same; try done; by intros [].
  - apply framed_same; try done; by intros [].
  - apply framed_same; try done; by intros [].
  - apply framed_same; try done; by intros [].
  - apply framed_same; try done; by intros [].
Qed.

Lemma run_session_cons s a acts :
  run_session model_map plugin recursion_limit s (a :: acts) =
    run_session model_map plugin recursion_limit (step model_map plugin recursion_limit s a) acts.
Proof. done. Qed.

Lemma announced_app tr1 tr2 : announced (tr1 ++ tr2) = announced tr1 ++ announced tr2.
Proof. unfold announced. apply bind_app. Qed.

Lemma announced_emitted name qqs : announced (Emitted name <$> qqs) = qqs.
Proof. induction qqs as [|q qqs IH]; [done|]. csimpl. by rewrite IH. Qed.

(** One step of a session: accounts are announced by [connect] and by
    nothing else. *)
Lemma step_announced s a :
  announced (trace (step model_map plugin recursion_limit s a)) =
    announced (trace s) ++ (if is_Connect a then qq (self s) else []).
Proof.
  unfold step. destruct a; simpl; rewrite ?app_nil_r.
  - rewrite connect_eq. unfold connected, hook_called.
    destruct (when_connected_do (self s)) as [[f []]|];
      try destruct (body f VNone (store s)) as [[v|e] h]; simpl;
      rewrite ?announced_app; simpl; rewrite ?announced_emitted, ?app_nil_r; done.
  - rewrite disconnect_eq. unfold hook_called. simpl.
    destruct (when_disconnected_do (self s)) as [[f []]|];
      try destruct (body f VNone (store s)) as [[v|e] h]; simpl;
      rewrite ?announced_app; simpl; rewrite ?app_nil_r; done.
  - rewrite handler_of_eq.
    destruct (body (model_map name) msg (store s)) as [[context|e] h1]; [|done].
    destruct (getattr h1 context "data") as [data|]; [|done]. simpl.
    destruct (blacklist_verdict name (self s) h1 context) as [[]|]; simpl;
      rewrite ?announced_app; simpl; rewrite ?app_nil_r; try done.
    destruct (middleware_of name (self s)) as [mw|]; simpl;
      rewrite ?announced_app; simpl; rewrite ?app_nil_r; try done.
    destruct (body mw context h1) as [[new_context|e] h2]; simpl;
      [destruct (isinstance_type_of h2 new_context context)|]; simpl;
      rewrite ?announced_app; simpl; rewrite ?app_nil_r; done.
  - rewrite distributor_of_eq.
    destruct (distribute_to_self (merged_receivers name (self s)) s context)
      as (subs & _ & ->). done.
  - unfold finish, thread_pool_callback, logger_catch. unfold_M.
    destruct (done_callback sub), worker; simpl;
      rewrite ?announced_app; simpl; rewrite ?app_nil_r; done.
  - by destruct func.
  - by destruct func.
  - by destruct name.
  - destruct name; simpl;
      unfold register_group_context_middleware, register_friend_context_middleware,
        register_event_context_middleware; unfold_M; simpl;
      (match goal with |- context [match ?mw with Some _ => _ | None => _ end] =>
         by destruct mw end).
  - done.
  - done.
  - done.
  - done.
  - done.
  - done.
  - done.
  - done.
Qed.

Lemma run_session_config acts :
  ∀ s, let b' := self (run_session model_map plugin recursion_limit s acts) in
       qq b' = qq (self s) ∧
       group_blacklist b' = group_blacklist (self s) ∧
       friend_blacklist b' = friend_blacklist (self s) ∧
       _exit b' = _exit (self s).
Proof.
  induction acts as [|a acts IH]; intros s; [done|].
  rewrite run_session_cons. cbv zeta in *.
  destruct (IH (step model_map plugin recursion_limit s a)) as (-> & -> & -> & ->).
  destruct (step_framed s a) as (? & ? & ? & ? & _). done.
Qed.

(** X1.  Nothing that happens in a session changes the accounts, the two
    blacklists or the exit flag the bot was constructed with. *)
Theorem configuration_fixed_in_session s acts :
  let b' := self (run_session model_map plugin recursion_limit s acts) in
  qq b' = qq (self s) ∧
  group_blacklist b' = group_blacklist (self s) ∧
  friend_blacklist b' = friend_blacklist (self s) ∧
  _exit b' = _exit (self s).
Proof.
  revert s. induction acts as [|a acts IH]; intros s; [done|].
  rewrite run_session_cons. cbv zeta in *.
  destruct (IH (step model_map plugin recursion_limit s a)) as (Hq & Hg & Hf & He).
  destruct (step_framed s a) as (Hq' & Hg' & Hf' & He' & _).
  split_and!; congruence.
Qed.

Lemma run_session_hand_receivers acts name :
  ∀ s, hand_receivers name (self (run_session model_map plugin recursion_limit s acts)) =
         hand_receivers name (self s) ++ (acts ≫= λ a, added_receivers a name).
Proof.
  induction acts as [|a acts IH]; intros s; [by rewrite app_nil_r|].
  rewrite run_session_cons, IH.
  destruct (step_framed s a) as (_ & _ & _ & _ & -> & _).
  by rewrite <- app_assoc.
Qed.

(** X2.  The receivers added by hand are never removed, reordered or
    deduplicated: after any session the hand receivers of a category are
    those it had, followed by the receivers the session added to that
    category, in the order of the calls. *)
Theorem hand_receivers_only_grow s acts name :
  hand_receivers name (self (run_session model_map plugin recursion_limit s acts)) =
    hand_receivers name (self s) ++ (acts ≫= λ a, added_receivers a name).
Proof.
  revert s. induction acts as [|a acts IH]; intros s; [by rewrite app_nil_r|].
  rewrite run_session_cons, IH. csimpl.
  destruct (step_framed s a) as (_ & _ & _ & _ & Hhand & _).
  by rewrite Hhand, <- app_assoc.
Qed.

(** X3.  The first middleware registered for a category stays for the whole
    session: after any session the slot holds what it held, or, if it was
    empty, the middleware of the first registration for that category. *)
Theorem first_middleware_wins s acts name :
  middleware_of name (self (run_session model_map plugin recursion_limit s acts)) =
    match middleware_of name (self s) with
    | Some mw => Some mw
    | None => head (omap (λ a, offered_middleware a name) acts)
    end.
Proof.
  revert s. induction acts as [|a acts IH]; intros s;
    [simpl; by destruct (middleware_of name (self s))|].
  rewrite run_session_cons, IH.
  destruct (step_framed s a) as (_ & _ & _ & _ & _ & ->).
  destruct (middleware_of name (self s)) as [mw|]; [done|]. simpl.
  by destruct (offered_middleware a name).
Qed.

(** X4.  The accounts are announced ([GetWebConn]) by [connect], once per
    account in the order of [qq], at every connect, whether or not the hook
    raises, and by no other action. *)
Theorem accounts_announced_at_every_connect s acts :
  announced (trace (run_session model_map plugin recursion_limit s acts)) =
    announced (trace s) ++ (acts ≫= λ a, if is_Connect a then qq (self s) else []).
Proof.
  revert s. induction acts as [|a acts IH]; intros s; [by rewrite app_nil_r|].
  rewrite run_session_cons, IH, step_announced.
  destruct (step_framed s a) as (-> & _). by rewrite <- app_assoc.
Qed.

End Frame.

Section Pipeline.

Variable model_map : event_name → Callable.
Variable plugin : PluginAPI.
Variable recursion_limit : nat.

Implicit Types (s : state) (b : IOTBOT) (h : heap).

Lemma merged_receivers_split name b :
  merged_receivers name b = hand_receivers name b ++ plugin_receivers name b.
Proof. by destruct name. Qed.

(** X5.  A message that passes the blacklist, with no middleware registered,
    and that [copy.deepcopy] can copy (it is not nested beyond the recursion
    limit): the handler hands its distribution to the pool, and the
    distribution hands over one invocation per receiver, the receivers added
    by hand first and those of the plugins after, as many as [receivers]
    reports for the category; the objects of the store are left as they
    were. *)
Theorem message_reaches_every_receiver name msg s context h1 data n0 :
  body (model_map name) msg (store s) = (Returns context, h1) →
  getattr h1 context "data" = Some data →
  blacklist_verdict name (self s) h1 context = Returns false →
  middleware_of name (self s) = None →
  closed_below n0 h1 → val_in n0 context →
  is_Some (deepcopy recursion_limit h1 context) →
  handler_of model_map name msg s =
    (Returns (),
     {| self := with_submitted [dispatch name context] (self s);
        store := h1; trace := trace s ++ [info_of h1 context data] |}) ∧
  ∃ cs h',
    distributor_of recursion_limit name context (handler_of model_map name msg s).2 =
      (Returns (),
       {| self :=
            with_submitted
              (dispatch name context
               :: invocations (hand_receivers name (self s) ++ plugin_receivers name (self s)) cs)
              (self s);
          store := h'; trace := trace s ++ [info_of h1 context data] |}) ∧
    length cs = receivers_count name (self s) ∧
    extends h1 h'.
Proof.
  intros Hc Hd Hb Hm Hcl Hv Hfit.
  assert (handler_of model_map name msg s =
    (Returns (),
     {| self := with_submitted [dispatch name context] (self s);
        store := h1; trace := trace s ++ [info_of h1 context data] |})) as Hrun.
  { rewrite handler_of_eq, Hc, Hd. simpl. by rewrite Hb, Hm. }
  split; [done|]. rewrite Hrun. simpl. rewrite distributor_of_eq.
  match goal with |- context [distribute_to recursion_limit ?rs context ?s1] =>
    destruct (distribute_to_spec recursion_limit rs s1 context n0 Hcl Hv Hfit)
      as (cs & h' & Hdist & Hlen & Hext & _) end.
  simpl in *. exists cs, h'. split_and!; [|
    |done].
  - rewrite Hdist, with_submitted_app. simpl.
    do 3 f_equal. by destruct name.
  - rewrite Hlen. destruct name; simpl; rewrite !length_app; lia.
Qed.

(** X6.  A message object without the attributes the handler reads makes
    the handler raise [AttributeError]: without [data], before anything is
    logged; without the id attribute of its category, after the log record.
    In both cases the middleware is not called and nothing is handed to the
    pool. *)
Theorem malformed_message_raises name msg s context h1 :
  body (model_map name) msg (store s) = (Returns context, h1) →
  (getattr h1 context "data" = None →
   handler_of model_map name msg s =
     (Raises (Exn "AttributeError" "data"),
      {| self := self s; store := h1; trace := trace s |})) ∧
  (∀ data field,
     getattr h1 context "data" = Some data →
     id_attribute name = Some field →
     getattr h1 context field = None →
     handler_of model_map name msg s =
       (Raises (Exn "AttributeError" field),
        {| self := self s; store := h1; trace := trace s ++ [info_of h1 context data] |})).
Proof.
  intros Hc. split.
  - intros Hd. by rewrite handler_of_eq, Hc, Hd.
  - intros data field Hd Hid Hf. rewrite handler_of_eq, Hc, Hd. simpl.
    destruct name; simpl in *; simplify_eq; unfold attr_in; by rewrite Hf.
Qed.

(** X7.  Each handler consults the blacklist of its own category only: the
    group handler does the same whatever the friend blacklist holds, and the
    friend handler the same whatever the group blacklist holds. *)
Theorem blacklists_are_per_category msg s gb fb gb' fb' :
  let s0 := with_self (set_blacklists gb fb) s in
  group_msg_handler model_map msg (with_self (set_blacklists gb fb') s) =
    ((group_msg_handler model_map msg s0).1,
     with_self (set_blacklists gb fb') (group_msg_handler model_map msg s0).2) ∧
  friend_msg_handler model_map msg (with_self (set_blacklists gb' fb) s) =
    ((friend_msg_handler model_map msg s0).1,
     with_self (set_blacklists gb' fb) (friend_msg_handler model_map msg s0).2).
Proof.
  simpl. split.
  - change (group_msg_handler model_map msg) with (handler_of model_map OnGroupMsgs msg).
    rewrite !handler_of_eq. simpl.
    destruct (body (model_map OnGroupMsgs) msg (store s)) as [[context|e] h1]; [|done].
    destruct (getattr h1 context "data") as [data|]; [|done]. simpl.
    destruct (attr_in context "FromGroupId" h1) as [v|e]; [|done].
    destruct (contains_in gb v h1) as [[]|]; try done.
    destruct (group_context_middleware (self s)) as [mw|]; [|done].
    destruct (body mw context h1) as [[new_context|e] h2]; [|done].
    by destruct (isinstance_type_of h2 new_context context).
  - change (friend_msg_handler model_map msg) with (handler_of model_map OnFriendMsgs msg).
    rewrite !handler_of_eq. simpl.
    destruct (body (model_map OnFriendMsgs) msg (store s)) as [[context|e] h1]; [|done].
    destruct (getattr h1 context "data") as [data|]; [|done]. simpl.
    destruct (attr_in context "FromUin" h1) as [v|e]; [|done].
    destruct (contains_in fb v h1) as [[]|]; try done.
    destruct (friend_context_middleware (self s)) as [mw|]; [|done].
    destruct (body mw context h1) as [[new_context|e] h2]; [|done].
    by destruct (isinstance_type_of h2 new_context context).
Qed.

(** X8.  The receivers are looked up when the distributor runs, not when the
    message arrives: a receiver added to the category after the message was
    handled and before its distributor runs gets its invocation too, after
    the other hand receivers and before those of the plugins, when the
    distributor runs on a context that [copy.deepcopy] can copy. *)
Theorem late_receiver_is_served name f s context n0 :
  closed_below n0 (store s) → val_in n0 context →
  is_Some (deepcopy recursion_limit (store s) context) →
  let s1 := step model_map plugin recursion_limit s (AddReceiver name f) in
  ∃ cs h',
    distributor_of recursion_limit name context s1 =
      (Returns (),
       {| self :=
            with_submitted
              (invocations
                 (hand_receivers name (self s) ++ [f] ++ plugin_receivers name (self s)) cs)
              (self s1);
          store := h'; trace := trace s |}) ∧
    length cs = S (length (merged_receivers name (self s))).
Proof.
  intros Hcl Hv Hfit s1. rewrite distributor_of_eq.
  assert (store s1 = store s ∧ trace s1 = trace s ∧
          merged_receivers name (self s1) =
            hand_receivers name (self s) ++ [f] ++ plugin_receivers name (self s))
    as (Hst & Htr & Hrs) by (subst s1; destruct name; simpl; by rewrite <- ?app_assoc).
  rewrite <- Hst in Hcl, Hfit.
  destruct (distribute_to_spec recursion_limit (merged_receivers name (self s1)) s1
              context n0 Hcl Hv Hfit)
    as (cs & h' & Hdist & Hlen & _).
  exists cs, h'. rewrite Hdist, Htr, Hrs. split; [done|].
  rewrite Hlen, Hrs, merged_receivers_split, !length_app. simpl. lia.
Qed.

End Pipeline.

Section HookEdges.

Implicit Types (s : state) (f : Callable).

(** X9.  A one-shot hook that raises is not used up: the exception leaves
    [connect] (respectively [disconnect]), the slot keeps the hook, and the
    next event calls it again. *)
Theorem raising_one_shot_hook_is_retried s f e h :
  body f VNone (store s) = (Raises e, h) →
  (when_connected_do (self s) = Some (f, false) →
   (connect s).1 = Raises e ∧
   when_connected_do (self (connect s).2) = Some (f, false) ∧
   calls_of (__name__ f) (trace (connect (connect s).2).2)
     = S (S (calls_of (__name__ f) (trace s)))) ∧
  (when_disconnected_do (self s) = Some (f, false) →
   (disconnect s).1 = Raises e ∧
   when_disconnected_do (self (disconnect s).2) = Some (f, false) ∧
   calls_of (__name__ f) (trace (disconnect (disconnect s).2).2)
     = S (S (calls_of (__name__ f) (trace s)))).
Proof.
  intros Hf. split; intros Hslot.
  - destruct (connect_hook s f false Hslot) as [Hcalls Hslot1]. rewrite Hf in Hslot1.
    simpl in Hslot1. destruct (connect_hook _ f false Hslot1) as [Hcalls2 _].
    split_and!; [by rewrite connect_eq, Hslot, Hf | done | by rewrite Hcalls2, Hcalls].
  - destruct (disconnect_hook s f false Hslot) as [Hcalls Hslot1]. rewrite Hf in Hslot1.
    simpl in Hslot1. destruct (disconnect_hook _ f false Hslot1) as [Hcalls2 _].
    split_and!; [|done | by rewrite Hcalls2, Hcalls].
    rewrite disconnect_eq. simpl. by rewrite Hslot, Hf.
Qed.

(** X10.  [disconnect] changes nothing of the bot but, at most, its own
    hook slot, which it may empty: receivers, middlewares, pool, scheduler and
    the connect hook are as before; and [connect] leaves the disconnect hook
    as it was. *)
Theorem disconnect_touches_only_its_slot s :
  (self (disconnect s).2 = self s ∨
   self (disconnect s).2 = set_when_do (when_connected_do (self s)) None (self s)) ∧
  announced (trace (disconnect s).2) = announced (trace s) ∧
  when_disconnected_do (self (connect s).2) = when_disconnected_do (self s).
Proof.
  split_and!.
  - rewrite disconnect_eq. simpl.
    destruct (when_disconnected_do (self s)) as [[f []]|];
      try destruct (body f VNone (store s)) as [[v|e] h]; simpl; auto.
  - rewrite disconnect_eq. unfold hook_called. simpl.
    destruct (when_disconnected_do (self s)) as [[f []]|];
      try destruct (body f VNone (store s)) as [[v|e] h]; simpl;
      rewrite ?announced_app; simpl; rewrite ?app_nil_r; done.
  - rewrite connect_eq. unfold connected, hook_called.
    destruct (when_connected_do (self s)) as [[f []]|];
      try destruct (body f VNone (store s)) as [[v|e] h]; simpl;
      by destruct (starts_scheduler (self s)).
Qed.

End HookEdges.

Section Shutdown.

Variable model_map : event_name → Callable.
Variable plugin : PluginAPI.
Variable recursion_limit : nat.

Implicit Types (t : Transport) (p : process).

(** X11.  When the transport can be disconnected, [run] never returns: it
    ends in [sys.exit], with status 1 if the connection attempt raised an
    [Exception] and with status 0 once the connection was made, however the
    wait ended (its return, a [KeyboardInterrupt], or any other exception);
    and whenever it exits, the exit flag is set and the pool shut down.  A
    failed connection attempt is logged and no event is handled. *)
Theorem run_exit_status t p u :
  sio_disconnect t = Returns u →
  (run model_map plugin recursion_limit t p).1 =
    match sio_connect t with
    | Returns _ => SystemExit 0
    | Raises e => if is_Exception e then SystemExit 1 else Uncaught e
    end ∧
  (∀ status, (run model_map plugin recursion_limit t p).1 = SystemExit status →
     _exit (self (session (run model_map plugin recursion_limit t p).2)) = true ∧
     pool_shut_down (run model_map plugin recursion_limit t p).2 = true) ∧
  (∀ e, sio_connect t = Raises e → is_Exception e = true →
     session (run model_map plugin recursion_limit t p).2 =
       with_self (set__exit true)
         {| self := self (session p); store := store (session p);
            trace := trace (session p)
                     ++ [Logged INFO "Connecting to the server..." []; LoggedException e] |}).
Proof.
  intros Hd. unfold run, close. rewrite Hd.
  destruct (sio_connect t) as [v|e].
  - split_and!; [by destruct (sio_wait t).2 as [|e]; [|destruct (is_KeyboardInterrupt e)]
                | | done].
    intros status _. by destruct (sio_wait t).2 as [|e]; [|destruct (is_KeyboardInterrupt e)].
  - destruct (is_Exception e) eqn:He; simpl.
    + split_and!; [done | done |]. intros e' [= <-] _.
      unfold with_self. simpl. by rewrite <- app_assoc.
    + split_and!; [done | done |]. intros e' [= <-]. by rewrite He.
Qed.

(** X12.  [close] disconnects first: when the transport's [disconnect]
    raises, that exception is how [run] ends once the connection was made,
    whatever ended the wait; the pool is not shut down and the exit flag is
    as the session left it, that is, as it was. *)
Theorem failed_disconnect_skips_shutdown t p u e :
  sio_connect t = Returns u →
  sio_disconnect t = Raises e →
  (run model_map plugin recursion_limit t p).1 = Uncaught e ∧
  pool_shut_down (run model_map plugin recursion_limit t p).2 = pool_shut_down p ∧
  _exit (self (session (run model_map plugin recursion_limit t p).2)) = _exit (self (session p)).
Proof.
  intros Hc Hd. unfold run, close. rewrite Hc, Hd.
  assert (∀ x : ending * process,
            (match (sio_wait t).2 with
             | Returns _ => x
             | Raises e0 => if is_KeyboardInterrupt e0 then x else x
             end) = x) as Hx
    by (intros x; by destruct (sio_wait t).2 as [|e0]; [|destruct (is_KeyboardInterrupt e0)]).
  rewrite Hx. simpl. split_and!; [done | done |].
  by destruct (run_session_config model_map plugin recursion_limit (sio_wait t).1
                 {| self := self (session p); store := store (session p);
                    trace := trace (session p) ++ [Logged INFO "Connecting to the server..." []] |})
    as (_ & _ & _ & ->).
Qed.

End Shutdown.

Section SchedulerLoopFacts.

Variable W : Type.
Variable should_run : W → Callable → bool.
Variable sorted : W → list Callable → list Callable.
Variable _run_job : Callable → W * state → Outcome unit * (W * state).
Variable idle_t : W * state → Outcome Z.
Variable sleep : W * state → W * state.
Variable elapse : W * state → W * state.

Implicit Types (ws : W * state) (js : list Callable).

(** X13.  [close] stops the scheduler loop: in the state [close] leaves
    when the transport lets it disconnect, a loop that is about to start
    returns at its first check, a loop that comes round for its next pass
    returns without running a job, whatever is due, and a loop among its
    naps returns before the next nap. *)
Theorem close_stops_scheduler_loop t status p u w fuel n :
  sio_disconnect t = Returns u →
  let s := session (close t status p).2 in
  _run_padding W should_run sorted _run_job idle_t sleep elapse (S fuel) (w, s) =
    Some (Returns (),
          (w, {| self := self s; store := store s;
                 trace := trace s ++ [Logged INFO "{} tasks that are scheduled to run."
                                        [VInt (Z.of_nat (length (jobs (scheduler (self s)))))]] |})) ∧
  padding_pass W should_run sorted _run_job idle_t sleep elapse (w, s) = (Returned, (w, s)) ∧
  naps W sleep (S n) (w, s) = (true, (w, s)).
Proof.
  intros Hd s.
  assert (_exit (self s) = true) as Hexit by (subst s; unfold close; by rewrite Hd).
  clearbody s. split_and!.
  - unfold _run_padding. simpl. unfold padding_pass. simpl. by rewrite Hexit.
  - unfold padding_pass. simpl. by rewrite Hexit.
  - simpl. by rewrite Hexit.
Qed.

Lemma naps_spec n :
  ∀ ws, ∃ k, k ≤ n ∧
    (naps W sleep n ws).2 = Nat.iter k sleep ws ∧
    (∀ j, j < k → _exit (self (Nat.iter j sleep ws).2) = false) ∧
    (if (naps W sleep n ws).1 then _exit (self (Nat.iter k sleep ws).2) = true else k = n).
Proof.
  induction n as [|n IH]; intros ws.
  - exists 0. split_and!; [done | done | intros j Hj; lia | done].
  - simpl. destruct (_exit (self ws.2)) eqn:Hexit.
    + exists 0. split_and!; [lia | done | intros j Hj; lia | done].
    + destruct (IH (sleep ws)) as (k & Hk & Hst & Hbefore & Hend).
      exists (S k). rewrite !Nat.iter_succ_r. split_and!; [lia | done | |].
      * intros [|j] Hj; [done|]. rewrite Nat.iter_succ_r. apply Hbefore. lia.
      * destruct (naps W sleep n (sleep ws)).1; [done | by f_equal].
Qed.

(** X14.  Between two rounds of jobs the loop sleeps in naps of 5 seconds:
    never more than [t // 5] of them, hence never longer than [t] seconds;
    it checks the exit flag before every nap and returns at the first check
    that finds it set, so no nap is taken after the flag was seen. *)
Theorem naps_are_short_and_interruptible t ws :
  let n := Z.to_nat (t / 5) in
  ∃ k,
    (naps W sleep n ws).2 = Nat.iter k sleep ws ∧
    (5 * Z.of_nat k ≤ Z.max 0 t)%Z ∧
    (∀ j, j < k → _exit (self (Nat.iter j sleep ws).2) = false) ∧
    (if (naps W sleep n ws).1 then _exit (self (Nat.iter k sleep ws).2) = true else k = n).
Proof.
  intros n. destruct (naps_spec n ws) as (k & Hk & Hst & Hbefore & Hend).
  exists k. split_and!; [done | | done | done].
  subst n. destruct (decide (0 < t)%Z) as [Ht|Ht].
  - pose proof (Z.mul_div_le t 5 ltac:(lia)). lia.
  - assert (t / 5 ≤ 0)%Z by (apply Z.div_le_upper_bound; lia). lia.
Qed.

Lemma run_jobs_app js1 js2 ws :
  run_jobs W _run_job (js1 ++ js2) ws =
    match run_jobs W _run_job js1 ws with
    | (Returns _, ws1) => run_jobs W _run_job js2 ws1
    | (Raises e, ws1) => (Raises e, ws1)
    end.
Proof.
  revert ws. induction js1 as [|job js1 IH]; intros ws; [done|]. simpl.
  destruct (_run_job job _) as [[v|e] ws1]; [apply IH | done].
Qed.

(** X15.  A due job that raises ends the scheduler loop: the jobs sorted
    before it have run, the exception leaves [_run_padding] in the state the
    failing job left, and neither the jobs sorted after it nor any later
    round is run. *)
Theorem failing_job_ends_scheduler_loop ws js1 job js2 ws1 u e ws2 fuel :
  let ws0 := note W (Logged INFO "{} tasks that are scheduled to run."
                       [VInt (Z.of_nat (length (jobs (scheduler (self ws.2)))))]) ws in
  _exit (self ws.2) = false →
  sorted ws.1 (filter (λ j, should_run ws.1 j = true) (jobs (scheduler (self ws.2))))
    = js1 ++ job :: js2 →
  run_jobs W _run_job js1 ws0 = (Returns u, ws1) →
  _run_job job (note W (Logged INFO "Running task => %s" [VStr (__name__ job)]) ws1)
    = (Raises e, ws2) →
  _run_padding W should_run sorted _run_job idle_t sleep elapse (S fuel) ws
    = Some (Raises e, ws2).
Proof.
  intros ws0 Hexit Hjs H1 Hjob. unfold _run_padding. fold ws0. simpl. unfold padding_pass.
  simpl. rewrite Hexit, Hjs, run_jobs_app, H1. simpl. by rewrite Hjob.
Qed.

End SchedulerLoopFacts.

Section Construction.

Variable model_map : event_name → Callable.
Variable config : Config.
Variable webhook : Webhook.
Variable plugin : PluginAPI.
Variable recursion_limit : nat.

Implicit Types (s : state) (a : action).

(** X16.  The blacklist of the configuration file, when it has entries,
    replaces the one passed to the constructor; the two are not merged.  The
    argument counts only when the configuration has none, and without either
    nothing is blacklisted. *)
Theorem config_blacklist_takes_precedence qq_arg use_plugins plugin_dir gb fb z :
  let b := __init__ config webhook plugin qq_arg use_plugins plugin_dir gb fb in
  (z ∈ group_blacklist b ↔
   z ∈ match config_group_blacklist config with
       | Some (x :: l) => x :: l
       | _ => default [] gb
       end) ∧
  (z ∈ friend_blacklist b ↔
   z ∈ match config_friend_blacklist config with
       | Some (x :: l) => x :: l
       | _ => default [] fb
       end).
Proof.
  simpl. rewrite !elem_of_list_to_set. split.
  - destruct (config_group_blacklist config) as [[|x l]|]; simpl;
      by destruct gb as [[|y l']|].
  - destruct (config_friend_blacklist config) as [[|x l]|]; simpl;
      by destruct fb as [[|y l']|].
Qed.

(** X17.  The pool has at least 6 and at most 50 workers, from construction
    on and through any session, however many receivers there are: the size
    handed to [ThreadPoolExecutor] is never zero. *)
Theorem pool_size_bounds qq_arg use_plugins plugin_dir gb fb h acts :
  let b0 := __init__ config webhook plugin qq_arg use_plugins plugin_dir gb fb in
  6 ≤ max_workers
        (executor (self (run_session model_map plugin recursion_limit (fresh b0 h) acts)))
    ≤ 50.
Proof.
  intros b0. rewrite run_session_max_workers.
  subst b0. unfold __init__, refresh_executor. cbn -[Nat.min Nat.mul].
  rewrite !length_app. lia.
Qed.

(** X18.  With the webhook switched on, the webhook's receiver of a category
    is the first to be served, through any session: the receivers of the
    category are the webhook's, then those added by hand in the order of the
    calls, then those of the plugins. *)
Theorem webhook_receiver_served_first qq_arg use_plugins plugin_dir gb fb h acts name :
  config_webhook config = true →
  let b0 := __init__ config webhook plugin qq_arg use_plugins plugin_dir gb fb in
  let s' := run_session model_map plugin recursion_limit (fresh b0 h) acts in
  merged_receivers name (self s') =
    webhook_receiver webhook name
    :: (acts ≫= λ a, added_receivers a name) ++ plugin_receivers name (self s').
Proof.
  intros Hw b0 s'. rewrite merged_receivers_split. subst s'.
  rewrite run_session_hand_receivers. subst b0.
  destruct name; simpl; by rewrite Hw.
Qed.

Lemma step_plugMgr s a :
  plugMgr (self (step model_map plugin recursion_limit s a))
    = plugin_effect plugin a (plugMgr (self s)).
Proof.
  unfold step. destruct a; simpl; try done.
  - rewrite connect_eq. unfold connected, hook_called.
    destruct (when_connected_do (self s)) as [[f []]|];
      try destruct (body f VNone (store s)) as [[v|e] h]; simpl;
      by destruct (starts_scheduler (self s)).
  - rewrite disconnect_eq. unfold hook_called. simpl.
    destruct (when_disconnected_do (self s)) as [[f []]|];
      try destruct (body f VNone (store s)) as [[v|e] h]; done.
  - rewrite handler_of_eq.
    destruct (body (model_map name) msg (store s)) as [[context|e] h1]; [|done].
    destruct (getattr h1 context "data") as [data|]; [|done]. simpl.
    destruct (blacklist_verdict name (self s) h1 context) as [[]|]; try done.
    destruct (middleware_of name (self s)) as [mw|]; [|done].
    destruct (body mw context h1) as [[new_context|e] h2]; [|done].
    by destruct (isinstance_type_of h2 new_context context).
  - rewrite distributor_of_eq.
    by destruct (distribute_to_self recursion_limit (merged_receivers name (self s)) s context)
      as (subs & -> & _).
  - unfold finish, thread_pool_callback, logger_catch. unfold_M.
    by destruct (done_callback sub), worker.
  - by destruct func.
  - by destruct func.
  - by destruct name.
  - destruct name; simpl;
      unfold register_group_context_middleware, register_friend_context_middleware,
        register_event_context_middleware; unfold_M; simpl;
      (match goal with |- context [match ?mw with Some _ => _ | None => _ end] =>
         by destruct mw end).
Qed.

(** X19.  The plugin manager changes through the six plugin shortcuts and
    through nothing else: after any session it is what the shortcuts called
    in the session, in order, made of it. *)
Theorem plugin_manager_changes_by_shortcuts_only s acts :
  plugMgr (self (run_session model_map plugin recursion_limit s acts)) =
    foldl (λ pm a, plugin_effect plugin a pm) (plugMgr (self s)) acts.
Proof.
  revert s. induction acts as [|a acts IH]; intros s; [done|].
  rewrite run_session_cons, IH. simpl. by rewrite step_plugMgr.
Qed.

Lemma step_traffic s a :
  is_traffic a = true →
  ∃ subs, self (step model_map plugin recursion_limit s a) = with_submitted subs (self s).
Proof.
  intros Ha. unfold step. destruct a; try done; simpl.
  - rewrite handler_of_eq.
    assert (∃ subs, self s = with_submitted subs (self s)) as Hsame
      by (exists []; by rewrite with_submitted_nil).
    destruct (body (model_map name) msg (store s)) as [[context|e] h1]; [|done].
    destruct (getattr h1 context "data") as [data|]; [|done]. simpl.
    destruct (blacklist_verdict name (self s) h1 context) as [[]|]; try done.
    destruct (middleware_of name (self s)) as [mw|]; [|by eexists].
    destruct (body mw context h1) as [[new_context|e] h2]; [|done].
    destruct (isinstance_type_of h2 new_context context); [by eexists | done].
  - rewrite distributor_of_eq.
    destruct (distribute_to_self recursion_limit (merged_receivers name (self s)) s context)
      as (subs & -> & _). by exists subs.
  - exists []. rewrite with_submitted_nil.
    unfold finish, thread_pool_callback, logger_catch. unfold_M.
    by destruct (done_callback sub), worker.
Qed.

(** X20.  Message traffic (inbound events, distributors run by the pool,
    units that finish) can only hand more units to the pool: hooks,
    middlewares, receivers, scheduler, plugin manager and configuration are
    left as they are. *)
Theorem traffic_only_feeds_the_pool s acts :
  Forall (λ a, is_traffic a = true) acts →
  ∃ subs,
    self (run_session model_map plugin recursion_limit s acts) = with_submitted subs (self s).
Proof.
  revert s. induction acts as [|a acts IH]; intros s Hacts.
  - exists []. by rewrite with_submitted_nil.
  - apply Forall_cons in Hacts as [Ha Hacts]. rewrite run_session_cons.
    destruct (step_traffic s a Ha) as (subs1 & Hs1).
    destruct (IH (step model_map plugin recursion_limit s a) Hacts) as (subs2 & Hs2).
    exists (subs1 ++ subs2). by rewrite Hs2, Hs1, with_submitted_app.
Qed.

End Construction.

(** * The further properties on the sample deployment *)

(** X5 on the sample bot: a payload of group 2002, two receivers. *)
Lemma message_reaches_every_receiver_witness :
  let s := sample_receivers_state in
  let h1 := sample_store ++ [sample_message] in
  body (sample_model_map OnGroupMsgs) (VRef 1) (store s) = (Returns (VRef 2), h1) ∧
  getattr h1 (VRef 2) "data" = Some (VRef 1) ∧
  blacklist_verdict OnGroupMsgs (self s) h1 (VRef 2) = Returns false ∧
  middleware_of OnGroupMsgs (self s) = None ∧
  closed_below 3 h1 ∧ val_in 3 (VRef 2) ∧
  is_Some (deepcopy sample_limit h1 (VRef 2)) ∧
  ∃ cs h',
    distributor_of sample_limit OnGroupMsgs (VRef 2)
      (handler_of sample_model_map OnGroupMsgs (VRef 1) s).2 =
      (Returns (),
       {| self :=
            with_submitted
              (dispatch OnGroupMsgs (VRef 2)
               :: invocations (hand_receivers OnGroupMsgs (self s)
                               ++ plugin_receivers OnGroupMsgs (self s)) cs)
              (self s);
          store := h'; trace := trace s ++ [info_of h1 (VRef 2) (VRef 1)] |}) ∧
    length cs = 2.
Proof.
  intros s h1.
  assert (blacklist_verdict OnGroupMsgs (self s) h1 (VRef 2) = Returns false) as Hb
    by (vm_compute; reflexivity).
  assert (closed_below 3 h1) as Hcl by (apply check_closed_correct; vm_compute; reflexivity).
  assert (val_in 3 (VRef 2)) as Hv by (apply val_in_ref; lia).
  assert (is_Some (deepcopy sample_limit h1 (VRef 2))) as Hfit
    by (vm_compute; eexists; reflexivity).
  split_and!; [reflexivity | reflexivity | exact Hb | reflexivity | exact Hcl | exact Hv
              | exact Hfit |].
  destruct (message_reaches_every_receiver sample_model_map sample_limit OnGroupMsgs
              (VRef 1) s (VRef 2) h1 (VRef 1) 3 eq_refl eq_refl Hb eq_refl Hcl Hv Hfit)
    as (_ & cs & h' & Hrun & Hlen & _).
  exists cs, h'. exact (conj Hrun Hlen).
Defined.

(** X6 on the sample bot: a message class without attributes, and one with
    [data] only. *)
Lemma malformed_message_raises_witness :
  let bare := λ _ : event_name, bare_constructor "Bare" [] in
  let half := λ _ : event_name, bare_constructor "Half" [("data", VNone)] in
  (getattr (sample_store ++ [OInst ["Bare"] []]) (VRef 2) "data" = None ∧
   handler_of bare OnGroupMsgs VNone sample_state =
     (Raises (Exn "AttributeError" "data"),
      {| self := sample_bot; store := sample_store ++ [OInst ["Bare"] []]; trace := [] |})) ∧
  (getattr (sample_store ++ [OInst ["Half"] [("data", VNone)]]) (VRef 2) "FromGroupId" = None ∧
   handler_of half OnGroupMsgs VNone sample_state =
     (Raises (Exn "AttributeError" "FromGroupId"),
      {| self := sample_bot; store := sample_store ++ [OInst ["Half"] [("data", VNone)]];
         trace := [Logged INFO "{} ->  {}" [VStr "Half"; VNone]] |})).
Proof.
  intros bare half. split; (split; [reflexivity|]).
  - exact (proj1 (malformed_message_raises bare OnGroupMsgs VNone sample_state
                    (VRef 2) _ eq_refl) eq_refl).
  - exact (proj2 (malformed_message_raises half OnGroupMsgs VNone sample_state
                    (VRef 2) _ eq_refl) VNone "FromGroupId" eq_refl eq_refl eq_refl).
Defined.

(** X8 on the sample bot: a third receiver added after the message of group
    2002 was handled. *)
Lemma late_receiver_is_served_witness :
  closed_below 3 (store sample_dispatched) ∧ val_in 3 (VRef 2) ∧
  is_Some (deepcopy sample_limit (store sample_dispatched) (VRef 2)) ∧
  ∃ cs h',
    distributor_of sample_limit OnGroupMsgs (VRef 2)
      (step sample_model_map sample_plugin sample_limit sample_dispatched
         (AddReceiver OnGroupMsgs (noop "late"))) =
      (Returns (),
       {| self :=
            with_submitted
              (invocations [noop "first"; noop "second"; noop "late"] cs)
              (self (step sample_model_map sample_plugin sample_limit sample_dispatched
                       (AddReceiver OnGroupMsgs (noop "late"))));
          store := h'; trace := trace sample_dispatched |}) ∧
    length cs = 3.
Proof.
  assert (closed_below 3 (store sample_dispatched)) as Hcl
    by (apply check_closed_correct; vm_compute; reflexivity).
  assert (val_in 3 (VRef 2)) as Hv by (apply val_in_ref; lia).
  assert (is_Some (deepcopy sample_limit (store sample_dispatched) (VRef 2))) as Hfit
    by (vm_compute; eexists; reflexivity).
  split_and!; [exact Hcl | exact Hv | exact Hfit |].
  destruct (late_receiver_is_served sample_model_map sample_plugin sample_limit OnGroupMsgs
              (noop "late") sample_dispatched (VRef 2) 3 Hcl Hv Hfit)
    as (cs & h' & Hrun & Hlen).
  exists cs, h'. exact (conj Hrun Hlen).
Defined.

(** X9 on the sample bot: a one-shot hook that raises, at two connects and
    at two disconnects. *)
Lemma raising_one_shot_hook_is_retried_witness :
  let s := sample_hooked_state in
  let hook := failing "hook" in
  body hook VNone (store s) = (Raises (Exn "ValueError" "hook"), sample_store) ∧
  when_connected_do (self s) = Some (hook, false) ∧
  when_disconnected_do (self s) = Some (hook, false) ∧
  when_connected_do (self (connect s).2) = Some (hook, false) ∧
  calls_of "hook" (trace (connect (connect s).2).2) = 2 ∧
  when_disconnected_do (self (disconnect s).2) = Some (hook, false) ∧
  calls_of "hook" (trace (disconnect (disconnect s).2).2) = 2.
Proof.
  intros s hook.
  destruct (raising_one_shot_hook_is_retried s hook _ _ eq_refl) as [Hc Hd].
  destruct (Hc eq_refl) as (_ & Hc1 & Hc2). destruct (Hd eq_refl) as (_ & Hd1 & Hd2).
  split_and!; [reflexivity | reflexivity | reflexivity
              | exact Hc1 | exact Hc2 | exact Hd1 | exact Hd2].
Defined.

(** X11 on the sample bot: a transport that connects and one that refuses. *)
Lemma run_exit_status_witness :
  sio_disconnect quiet_transport = Returns () ∧
  sio_disconnect refusing_transport = Returns () ∧
  (run sample_model_map sample_plugin sample_limit quiet_transport sample_process).1
    = SystemExit 0 ∧
  (run sample_model_map sample_plugin sample_limit refusing_transport sample_process).1
    = SystemExit 1.
Proof.
  split_and!; [reflexivity | reflexivity | |].
  - exact (proj1 (run_exit_status sample_model_map sample_plugin sample_limit quiet_transport
                    sample_process () eq_refl)).
  - exact (proj1 (run_exit_status sample_model_map sample_plugin sample_limit refusing_transport
                    sample_process () eq_refl)).
Defined.

(** X12 on the sample bot: a transport that cannot disconnect. *)
Lemma failed_disconnect_skips_shutdown_witness :
  sio_connect stuck_transport = Returns () ∧
  sio_disconnect stuck_transport = Raises (Exn "OSError" "stuck") ∧
  (run sample_model_map sample_plugin sample_limit stuck_transport sample_process).1
    = Uncaught (Exn "OSError" "stuck") ∧
  pool_shut_down
    (run sample_model_map sample_plugin sample_limit stuck_transport sample_process).2
    = false ∧
  _exit (self (session
           (run sample_model_map sample_plugin sample_limit stuck_transport sample_process).2))
    = false.
Proof.
  split_and!; [reflexivity | reflexivity | ..];
    apply (failed_disconnect_skips_shutdown sample_model_map sample_plugin sample_limit
             stuck_transport sample_process () _ eq_refl eq_refl).
Defined.

(** X13 on the sample bot: the loop started after [close], with a job due,
    and the loop with two naps to go. *)
Lemma close_stops_scheduler_loop_witness :
  sio_disconnect quiet_transport = Returns () ∧
  let s := session (close quiet_transport 0
                      {| session := sample_jobs_state; pool_shut_down := false |}).2 in
  (∃ s',
     _run_padding nat (λ _ _, true) (λ _ js, js) sample_run_job (λ _, Returns 12%Z)
       sample_sleep id 1 (0, s) = Some (Returns (), (0, s')) ∧
     calls_of "ok" (trace s') = 0) ∧
  naps nat sample_sleep 2 (0, s) = (true, (0, s)).
Proof.
  split; [reflexivity|]. intros s.
  destruct (close_stops_scheduler_loop nat (λ _ _, true) (λ _ js, js) sample_run_job
              (λ _, Returns 12%Z) sample_sleep id quiet_transport 0
              {| session := sample_jobs_state; pool_shut_down := false |} () 0 0 1 eq_refl)
    as (Hstart & _ & Hnaps).
  split; [|exact Hnaps].
  eexists. split; [exact Hstart | reflexivity].
Defined.

(** X15 on the sample bot: three due jobs, the second raises. *)
Lemma failing_job_ends_scheduler_loop_witness :
  let s := sample_jobs_state in
  _exit (self s) = false ∧
  jobs (scheduler (self s)) = [noop "ok"] ++ failing "bad" :: [noop "never"] ∧
  ∃ ws2,
    _run_padding nat (λ _ _, true) (λ _ js, js) sample_run_job (λ _, Returns 12%Z)
      sample_sleep id 1 (0, s) = Some (Raises (Exn "ValueError" "bad"), ws2) ∧
    ws2.1 = 2.
Proof.
  intros s. split_and!; [reflexivity | reflexivity |]. eexists. split.
  - exact (failing_job_ends_scheduler_loop nat (λ _ _, true) (λ _ js, js) sample_run_job
             (λ _, Returns 12%Z) sample_sleep id (0, s) [noop "ok"] (failing "bad")
             [noop "never"] _ () _ _ 0 eq_refl eq_refl eq_refl eq_refl).
  - reflexivity.
Defined.

(** X18 on a bot built with the webhook switched on. *)
Lemma webhook_receiver_served_first_witness :
  config_webhook webhook_config = true ∧
  merged_receivers OnGroupMsgs
    (self (run_session sample_model_map sample_plugin sample_limit
             (fresh (__init__ webhook_config sample_webhook sample_plugin (inr [1%Z; 2%Z])
                       false "plugins" None None) sample_store)
             [AddReceiver OnGroupMsgs (noop "mine")])) =
    [noop "receive_group_msg"; noop "mine"].
Proof.
  split; [reflexivity|].
  exact (webhook_receiver_served_first sample_model_map webhook_config sample_webhook
           sample_plugin sample_limit (inr [1%Z; 2%Z]) false "plugins" None None sample_store
           [AddReceiver OnGroupMsgs (noop "mine")] OnGroupMsgs eq_refl).
Defined.

(** X20 on the sample bot: two messages and the distribution of one. *)
Lemma traffic_only_feeds_the_pool_witness :
  let acts := [Inbound OnGroupMsgs (VRef 1); Inbound OnFriendMsgs (VRef 0);
               RunDistribute OnGroupMsgs (VRef 2)] in
  Forall (λ a, is_traffic a = true) acts ∧
  ∃ subs, self (sample_run acts) = with_submitted subs sample_bot.
Proof.
  intros acts.
  assert (Forall (λ a, is_traffic a = true) acts) as Hacts
    by (repeat constructor).
  split; [exact Hacts|].
  exact (traffic_only_feeds_the_pool sample_model_map sample_plugin sample_limit
           sample_state acts Hacts).
Defined.
